(** * Wheel of Life: scoring, insights, snapshots and chart data

    A shallow embedding of [src/app/page.tsx] (the [Home] component with
    its helpers [loadAssessments], [suggestForCategory] and
    [generateInsights]), of the data memo, the export handler and the
    export text of the [WheelChart] component and of
    [src/components/ThemeToggle.tsx], followed by the properties of the
    specification and by further properties of the code.

    Conventions of the embedding.
    - A JavaScript string is a [string] of bytes.  The string methods
      [trim] and [toLowerCase] are given on the ASCII range and keep
      bytes above 127 as they are, so they are the methods of the
      program on strings within ASCII ([JsString.is_ascii]); statements
      that rest on what they do to a label or a name carry this as a
      hypothesis.
    - A [Record<string, number>] is a finite map [gmap string Z] of its
      own properties.  Scores are integers: they come from the literal 5
      and from a range input with step 1.  Integers of magnitude below
      2^53 are exact as JavaScript numbers, so sums are taken in [Z].
      The only inexact operation of the program, the division of the
      average, is IEEE 754 binary64 division ([SFdiv] of the standard
      library's [SpecFloat]).
    - The records of the program are plain objects, so a read [o[k]]
      that finds no own property goes on to [Object.prototype], and an
      assignment under the key [__proto__] reaches the setter that
      [Object.prototype] has for it ([JsObject]).  A read therefore
      gives a value of the record's type or what [Object.prototype]
      holds under the key.
    - React state is an explicit record; an event handler is a function
      from state to state that applies the handler's updates in order.
      The state variables [isSaving], [exportUrl] and [userName] play no
      part in the modelled code and are left out.  Random identifiers,
      the clock and the locale are parameters of the handlers.
    - Objects and references are made explicit in the module [Heap],
      where a snapshot shares what the program makes it share. *)

From Stdlib Require Import ZArith List String Ascii Lia Permutation Sorted.
From Stdlib Require Import Floats.SpecFloat.
From stdpp Require Import gmap strings list pretty.

Local Open Scope Z_scope.

(** ** Strings *)

Module JsString.

(** White space and line terminators of ECMAScript within ASCII:
    TAB, LF, VT, FF, CR and SP. *)
Definition is_space (c : ascii) : bool :=
  let n := nat_of_ascii c in
  ((9 <=? n)%nat && (n <=? 13)%nat) || (n =? 32)%nat.

Definition is_upper (c : ascii) : bool :=
  let n := nat_of_ascii c in (65 <=? n)%nat && (n <=? 90)%nat.

(** The character class [a-z0-9]. *)
Definition is_lower_alnum (c : ascii) : bool :=
  let n := nat_of_ascii c in
  ((97 <=? n)%nat && (n <=? 122)%nat) || ((48 <=? n)%nat && (n <=? 57)%nat).

Definition lower_char (c : ascii) : ascii :=
  if is_upper c then ascii_of_nat (nat_of_ascii c + 32) else c.

Fixpoint trimStart_chars (s : list ascii) : list ascii :=
  match s with
  | [] => []
  | c :: s' => if is_space c then trimStart_chars s' else s
  end.

Definition trim_chars (s : list ascii) : list ascii :=
  rev (trimStart_chars (rev (trimStart_chars s))).

(** [s.trim()] for a string within ASCII *)
Definition trim (s : string) : string :=
  string_of_list_ascii (trim_chars (list_ascii_of_string s)).

(** [s.toLowerCase()] for a string within ASCII *)
Definition toLowerCase (s : string) : string :=
  string_of_list_ascii (map lower_char (list_ascii_of_string s)).

(** [s.replace(/[^a-z0-9]+/g, '-')] on a list of characters:
    [in_run] tells that the previous character already belongs to the
    run being replaced. *)
Fixpoint replace_runs (in_run : bool) (s : list ascii) : list ascii :=
  match s with
  | [] => []
  | c :: s' =>
      if is_lower_alnum c then c :: replace_runs false s'
      else if in_run then replace_runs true s'
      else "-"%char :: replace_runs true s'
  end.

Definition replace_non_alnum (s : string) : string :=
  string_of_list_ascii (replace_runs false (list_ascii_of_string s)).

(** The double quote character. *)
Definition dquote : ascii := ascii_of_nat 34.

(** A string in a boolean position: only the empty string is falsy. *)
Definition truthy (s : string) : bool :=
  match s with EmptyString => false | String _ _ => true end.

(** A string within ASCII.  On such strings the white space of [trim]
    is all the white space of ECMAScript and the letters of
    [toLowerCase] are all the letters that have a lower case. *)
Definition is_ascii (s : string) : bool :=
  forallb (fun c => (nat_of_ascii c <? 128)%nat) (list_ascii_of_string s).

End JsString.

(** ** Plain objects *)

Module JsObject.

(** The property names of [Object.prototype]: those of ECMAScript and
    the legacy names of its annex B, which browsers and Node provide.
    Each holds a function, except [__proto__], an accessor. *)
Definition prototype_keys : list string :=
  ["constructor"; "hasOwnProperty"; "isPrototypeOf"; "propertyIsEnumerable";
   "toLocaleString"; "toString"; "valueOf";
   "__defineGetter__"; "__defineSetter__"; "__lookupGetter__"; "__lookupSetter__";
   "__proto__"].

Definition inherited (key : string) : bool :=
  bool_decide (key ∈ prototype_keys).

(** What a read of a property gives when it is not [undefined]: a value
    of the type [A] that the object is declared to hold, or what
    [Object.prototype] gives under [key]: the function it holds there
    or, for [__proto__], the prototype of the object read, which is
    [Object.prototype] itself.  None of these is [null], [undefined] or
    a number. *)
Inductive value (A : Type) : Type :=
| Val (a : A)
| Builtin (key : string).
Arguments Val {A} a.
Arguments Builtin {A} key.

(** [o[key]] on a plain object with the own properties [o]; [None] is
    [undefined]. *)
Definition get {A} (o : gmap string (value A)) (key : string) : option (value A) :=
  match o !! key with
  | Some v => Some v
  | None => if inherited key then Some (Builtin key) else None
  end.

(** [o[key] = v] on a plain object.  The object gets or updates an own
    property, except under the key [__proto__] when it has no own
    property of this name: the assignment then calls the setter of
    [Object.prototype], which ignores a value that is not an object and,
    given [Object.prototype] itself, leaves the prototype as it is.
    (Given another object the setter would replace the prototype; the
    program writes none under this key.) *)
Definition set {A} (key : string) (v : value A) (o : gmap string (value A))
    : gmap string (value A) :=
  if String.eqb key "__proto__" && bool_decide (o !! key = None) then o
  else <[key := v]> o.

(** [a ?? b] *)
Definition nullish {A} (a : option A) (b : A) : A := default b a.

End JsObject.

(** ** Numbers *)

Module JsNumber.

Definition prec : Z := 53.
Definition emax : Z := 1024.

(** The binary64 value of an integer. *)
Definition of_Z (z : Z) : spec_float := binary_normalize prec emax z 0 false.

(** [x / y] *)
Definition div (x y : spec_float) : spec_float := SFdiv prec emax x y.

(** [floor (10 * m * 2^e + 1/2)]: the integer [n] for which [n / 10]
    is nearest to [m * 2^e], the larger one of two. *)
Definition nearest_tenths (m e : Z) : Z :=
  if 0 <=? e then 10 * m * 2 ^ e
  else (20 * m + 2 ^ (- e)) / (2 * 2 ^ (- e)).

(** [m * 2^e >= 10^21] *)
Definition ge_1e21 (m e : Z) : bool :=
  if 0 <=? e then 10 ^ 21 <=? m * 2 ^ e else 10 ^ 21 * 2 ^ (- e) <=? m.

(** The digits of [n] with a point before the last one, after padding
    with a zero on the left when there is a single digit. *)
Definition render_tenths (n : Z) : string :=
  let m := pretty n in
  let m := if (String.length m <=? 1)%nat then "0" +:+ m else m in
  let k := String.length m in
  substring 0 (k - 1) m +:+ "." +:+ substring (k - 1) 1 m.

(** [x.toFixed(1)].  A finite value of magnitude 10^21 or more is
    printed by [Number::toString] in exponent notation, which is not
    modelled: the result is [None] there. *)
Definition toFixed1 (x : spec_float) : option string :=
  match x with
  | S754_nan => Some "NaN"
  | S754_infinity s => Some (if s then "-Infinity" else "Infinity")
  | S754_zero _ => Some "0.0"
  | S754_finite s m e =>
      if ge_1e21 (Z.pos m) e then None
      else Some ((if s then "-" else "") +:+ render_tenths (nearest_tenths (Z.pos m) e))
  end.

End JsNumber.

(** ** Arrays *)

Section ArraySort.
Context {A : Type}.
Variable comparefn : A -> A -> Z.

(** [x] was in front of every element of [l]: it stays in front of
    the first element that does not have to come before it. *)
Fixpoint sort_insert (x : A) (l : list A) : list A :=
  match l with
  | [] => [x]
  | y :: l' =>
      if comparefn x y <=? 0 then x :: y :: l' else y :: sort_insert x l'
  end.

(** [l.sort(comparefn)] on a copy.  ECMAScript requires the sort to be
    stable; for a comparator that is a difference of keys this fixes
    the result, whatever the algorithm of the engine. *)
Definition sort (l : list A) : list A := foldr sort_insert [] l.

End ArraySort.

(** ** Data model *)

Record Category := mkCategory {
  cat_id : string;
  cat_label : string;
  cat_description : string;
}.

Definition DEFAULT_CATEGORIES : list Category := [
  mkCategory "health" "Health & Energy"
    "Physical health, sleep, energy, and overall wellbeing.";
  mkCategory "career" "Career & Work"
    "Progress, fulfillment, and alignment at work or in studies.";
  mkCategory "relationships" "Relationships"
    "Family, friends, partner, and social support.";
  mkCategory "finance" "Finances"
    "Income, savings, security, and money habits.";
  mkCategory "growth" "Personal Growth"
    "Learning, mindset, and self-development.";
  mkCategory "fun" "Fun & Recreation"
    "Play, hobbies, and activities that recharge you.";
  mkCategory "environment" "Environment"
    "Home, workspace, and surroundings.";
  mkCategory "spirituality" "Meaning & Spirituality"
    "Purpose, values, and connection to something bigger."
].

Record StoredAssessment := mkStoredAssessment {
  sa_id : string;
  sa_name : string;
  sa_createdAt : string;
  sa_scores : gmap string Z;
  sa_categories : list Category;
}.

(** The snapshot type of the chart component. *)
Record AssessmentSnapshot := mkAssessmentSnapshot {
  snap_id : string;
  snap_name : string;
  snap_createdAt : string;
  snap_scores : gmap string (JsObject.value Z);
}.

(** ** Insight engine *)

Definition suggestions : gmap string string :=
  list_to_map [
    ("health",
      "Pick one tiny habit this week (a 10‑minute walk, stretching, or lights‑out time) that would noticeably improve your energy.");
    ("career",
      "Clarify your next small career move: a conversation, a course, or a project that moves you one step forward.");
    ("relationships",
      "Schedule one meaningful check‑in or shared activity with someone important to you.");
    ("finance",
      "Decide on one simple money habit: a weekly budget review, an automatic transfer, or tracking expenses.");
    ("growth",
      "Choose one skill or topic to focus on this month and block out two learning sessions in your calendar.");
    ("fun",
      "Plan a small, guilt‑free activity this week that’s just for enjoyment and recharge.");
    ("environment",
      "Identify one small improvement to your space (decluttering, lighting, or setup) and schedule it.");
    ("spirituality",
      "Set aside a short daily or weekly ritual (reflection, journaling, or quiet time) to reconnect with your values.")
  ].

Definition generic_suggestion (label : string) : string :=
  "Choose one small, realistic action this week that would move your " +:+
  String JsString.dquote label +:+
  String JsString.dquote " score up by just one point.".

(** [suggestions[id] ?? `...`]: the text of the table, the generic
    sentence, or what an id that names a property of [Object.prototype]
    finds there. *)
Definition suggestForCategory (id label : string) : JsObject.value string :=
  JsObject.nullish (JsObject.get (JsObject.Val <$> suggestions) id)
    (JsObject.Val (generic_suggestion label)).

Record Insights := mkInsights {
  summary : option string;
  highlights : list string;
  actions : list (JsObject.value string);
}.

(** [scores[c.label] ?? 0] for a category that has a score; the engine
    reads the score of no other category. *)
Definition score_of (scores : gmap string Z) (c : Category) : Z :=
  default 0 (scores !! cat_label c).

(** [typeof scores[c.label] === 'number']: the record has an own entry
    under the label, since nothing that [Object.prototype] gives is a
    number. *)
Definition has_score (scores : gmap string Z) (c : Category) : bool :=
  bool_decide (is_Some (scores !! cat_label c)).

Definition by_score (scores : gmap string Z) (a b : Category) : Z :=
  score_of scores a - score_of scores b.

Definition placeholder_summary : string :=
  "Rate each area from 0–10 to see how balanced your current Wheel of Life feels.".

Definition summary_text (avg : string) (count : nat) : string :=
  "Your average score is " +:+ avg +:+ "/10 across " +:+ pretty count +:+
  " areas. A balanced wheel is less about perfection and more about feeling steady overall.".

Definition highlight_text (label : string) (value : Z) : string :=
  label +:+ ": " +:+ pretty value +:+
  "/10 — a small improvement here could have an outsized impact on your overall balance.".

Definition active_of (categories : list Category) (scores : gmap string Z)
    : list Category :=
  filter (fun c => has_score scores c = true) categories.

Definition lowestSorted_of (categories : list Category) (scores : gmap string Z)
    : list Category :=
  sort (by_score scores) (active_of categories scores).

(** The priority set: [lowestSorted.slice(0, 3)]. *)
Definition lowest_of (categories : list Category) (scores : gmap string Z)
    : list Category :=
  take 3 (lowestSorted_of categories scores).

(** [values.reduce((acc, v) => acc + v, 0) / (values.length || 1)] *)
Definition average_of (values : list Z) : spec_float :=
  JsNumber.div
    (JsNumber.of_Z (foldl Z.add 0 values))
    (JsNumber.of_Z (Z.of_nat (if length values is O then 1%nat else length values))).

Definition generateInsights (categories : list Category) (scores : gmap string Z)
    : Insights :=
  let active := active_of categories scores in
  if length active is O then
    mkInsights (Some placeholder_summary) [] []
  else
    let values := map (score_of scores) active in
    let avg := average_of values in
    let lowest := lowest_of categories scores in
    mkInsights
      (s ← JsNumber.toFixed1 avg; Some (summary_text s (length active)))
      (map (fun cat => highlight_text (cat_label cat) (score_of scores cat)) lowest)
      (map (fun cat => suggestForCategory (cat_id cat) (cat_label cat)) lowest).

(** ** Chart data adapter *)

Record Dataset := mkDataset {
  ds_label : string;
  ds_data : list (JsObject.value Z);
  ds_backgroundColor : string;
  ds_borderColor : string;
  ds_pointBackgroundColor : string;
  ds_pointBorderColor : string;
  ds_borderWidth : Z;
  ds_pointRadius : Z;
}.

Record ChartData := mkChartData {
  chart_labels : list string;
  chart_datasets : list Dataset;
}.

(** [labels.map((label) => scores[label] ?? 0)] *)
Definition series_of (labels : list string) (scores : gmap string (JsObject.value Z))
    : list (JsObject.value Z) :=
  map (fun label => JsObject.nullish (JsObject.get scores label) (JsObject.Val 0)) labels.

(** The live scores are numbers; the scores of the comparison are what
    the memo of [Home] put there. *)
Definition currentValues (categories : list string) (currentScores : gmap string Z)
    : list (JsObject.value Z) :=
  series_of categories (JsObject.Val <$> currentScores).

Definition comparisonValues (categories : list string)
    (comparison : option AssessmentSnapshot) : option (list (JsObject.value Z)) :=
  match comparison with
  | Some c => Some (series_of categories (snap_scores c))
  | None => None
  end.

(** The [data] memo of [WheelChart]. *)
Definition WheelChart_data (categories : list string)
    (currentScores : gmap string Z) (comparison : option AssessmentSnapshot)
    : ChartData :=
  mkChartData categories
    (mkDataset "Current Assessment" (currentValues categories currentScores)
       "rgba(59, 130, 246, 0.25)" "rgba(37, 99, 235, 1)" "rgba(37, 99, 235, 1)"
       "#ffffff" 2 4
     ::
     match comparisonValues categories comparison, comparison with
     | Some values, Some c =>
         [mkDataset (snap_name c) values
            "rgba(16, 185, 129, 0.2)" "rgba(5, 150, 105, 1)" "rgba(5, 150, 105, 1)"
            "#ffffff" 2 3]
     | _, _ => []
     end).

(** ** Session state and event handlers of [Home] *)

Record State := mkState {
  categories : list Category;
  scores : gmap string Z;
  customLabel : string;
  customDescription : string;
  assessments : list StoredAssessment;
  selectedComparisonId : option string;
}.

Definition initial_scores : gmap string Z :=
  foldl (fun initial c => <[cat_label c := 5]> initial) ∅ DEFAULT_CATEGORIES.

Definition initial_state : State :=
  mkState DEFAULT_CATEGORIES initial_scores "" "" [] None.

Definition currentCategoriesLabels (st : State) : list string :=
  map cat_label (categories st).

(** The [comparisonSnapshot] memo:
    [scoresByLabel[c.label] = found.scores[c.label] ?? 0] for every
    category of the snapshot found. *)
Definition scoresByLabel (found : StoredAssessment) : gmap string (JsObject.value Z) :=
  foldl (fun acc c =>
           JsObject.set (cat_label c)
             (JsObject.nullish
                (JsObject.get (JsObject.Val <$> sa_scores found) (cat_label c))
                (JsObject.Val 0))
             acc)
    ∅ (sa_categories found).

Definition comparisonSnapshot (st : State) : option AssessmentSnapshot :=
  match selectedComparisonId st with
  | None => None
  | Some sid =>
      if negb (JsString.truthy sid) then None
      else
        match find (fun a => String.eqb (sa_id a) sid) (assessments st) with
        | None => None
        | Some found =>
            Some (mkAssessmentSnapshot (sa_id found) (sa_name found)
                    (sa_createdAt found) (scoresByLabel found))
        end
  end.

Definition insights (st : State) : Insights :=
  generateInsights (categories st) (scores st).

(** What [Home] hands to the chart. *)
Definition chart (st : State) : ChartData :=
  WheelChart_data (currentCategoriesLabels st) (scores st) (comparisonSnapshot st).

Definition handleScoreChange (label : string) (value : Z) (st : State) : State :=
  mkState (categories st) (<[label := value]> (scores st))
    (customLabel st) (customDescription st)
    (assessments st) (selectedComparisonId st).

Definition label_exists (trimmed : string) (cats : list Category) : bool :=
  existsb
    (fun c => String.eqb (JsString.toLowerCase (cat_label c))
                         (JsString.toLowerCase trimmed))
    cats.

Definition derived_id (trimmed : string) : string :=
  JsString.replace_non_alnum (JsString.toLowerCase trimmed).

Definition default_description : string :=
  "A custom area of life that matters to you.".

(** [now] is the value of [Date.now()]. *)
Definition newCat_of (now : Z) (trimmed description : string) : Category :=
  let id := derived_id trimmed in
  let d := JsString.trim description in
  mkCategory
    (if JsString.truthy id then id else "custom-" +:+ pretty now)
    trimmed
    (if JsString.truthy d then d else default_description).

Definition handleAddCategory (now : Z) (st : State) : State :=
  let trimmed := JsString.trim (customLabel st) in
  if negb (JsString.truthy trimmed) then st
  else if label_exists trimmed (categories st) then st
  else
    let newCat := newCat_of now trimmed (customDescription st) in
    mkState (categories st ++ [newCat])
      (<[cat_label newCat := 5]> (scores st))
      "" ""
      (assessments st) (selectedComparisonId st).

(** The form of the page: typing a label and a description, then
    pressing Add. *)
Definition addCategory (now : Z) (label description : string) (st : State) : State :=
  handleAddCategory now
    (mkState (categories st) (scores st) label description
       (assessments st) (selectedComparisonId st)).

Definition handleRemoveCategory (id : string) (st : State) : State :=
  mkState
    (filter (fun c => cat_id c <> id) (categories st))
    (match find (fun c => String.eqb (cat_id c) id) (categories st) with
     | Some cat => delete (cat_label cat) (scores st)
     | None => scores st
     end)
    (customLabel st) (customDescription st)
    (assessments st) (selectedComparisonId st).

(** The remove button of a category is rendered only when
    [categories.length > 4]. *)
Definition remove_offered (st : State) : bool :=
  (4 <? length (categories st))%nat.

(** Pressing the remove button of the category at position [i], when the
    page shows one. *)
Definition click_remove (i : nat) (st : State) : State :=
  match categories st !! i with
  | Some c => if remove_offered st then handleRemoveCategory (cat_id c) st else st
  | None => st
  end.

(** [id] is the fresh identifier, [date] and [time] the locale strings
    and [iso] the ISO string of the current instant. *)
Definition snapshot_of (id date time iso : string) (st : State) : StoredAssessment :=
  mkStoredAssessment id ("Assessment " +:+ date +:+ " " +:+ time) iso
    (scores st) (categories st).

Definition handleSaveAssessment (id date time iso : string) (st : State) : State :=
  mkState (categories st) (scores st)
    (customLabel st) (customDescription st)
    (snapshot_of id date time iso st :: assessments st)
    (Some id).

(** The buttons of the history list. *)
Definition toggle_comparison (id : string) (st : State) : State :=
  mkState (categories st) (scores st)
    (customLabel st) (customDescription st) (assessments st)
    (if bool_decide (selectedComparisonId st = Some id) then None else Some id).

Definition clear_comparison (st : State) : State :=
  mkState (categories st) (scores st)
    (customLabel st) (customDescription st) (assessments st) None.

(** ** Loading the history *)

#[local] Unset Elimination Schemes.
Inductive JSON :=
| JNull
| JBool (b : bool)
| JNumber (lexeme : string)
| JString (s : string)
| JArray (elems : list JSON)
| JObject (members : list (string * JSON)).
#[local] Set Elimination Schemes.

(** The outcome of [window.localStorage.getItem(STORAGE_KEY)]: it raises
    (storage denied) or returns the stored text, [None] for [null]. *)
Inductive getItem_result :=
| Raises
| Returns (raw : option string).

Section Load.
(** [JSON.parse]; [None] stands for a raised [SyntaxError]. *)
Variable JSON_parse : string -> option JSON.

(** [has_window] is [typeof window !== 'undefined']. *)
Definition loadAssessments (has_window : bool) (stored : getItem_result)
    : list JSON :=
  if negb has_window then []
  else
    match stored with
    | Raises => []
    | Returns None => []
    | Returns (Some raw) =>
        if negb (JsString.truthy raw) then []
        else
          match JSON_parse raw with
          | None => []
          | Some (JArray parsed) => parsed
          | Some _ => []
          end
    end.
End Load.

(** ** The same handlers over a store of objects

    The handlers above pass values around.  In the program the score
    record, the category array, each category and each snapshot are
    objects that are reached through references, and a snapshot keeps
    the references it was built with.  This module makes the store and
    the references explicit: every object literal, spread, [filter] and
    array literal of a handler allocates, and [delete copy[...]] writes
    into the store. *)

Module Heap.

Definition loc := nat.

Inductive object :=
| OCategory (c : Category)
| ORecord (props : gmap string Z)
| OArray (elems : list loc)
| OSnapshot (id name createdAt : string) (scores categories : loc).

Definition heap := list object.

(** Computations that read and write the store and may get stuck (on
    a dangling reference or an object of the wrong kind). *)
Definition M (A : Type) : Type := heap -> option (A * heap).

Definition ret {A} (a : A) : M A := fun h => Some (a, h).

Definition bind {A B} (m : M A) (k : A -> M B) : M B :=
  fun h => match m h with
           | Some (a, h') => k a h'
           | None => None
           end.

Definition stuck {A} : M A := fun _ => None.

Notation "'let*' x ':=' m 'in' k" := (bind m (fun x => k))
  (at level 10, x name, m at level 100, k at level 200).

Definition alloc (o : object) : M loc :=
  fun h => Some (length h, h ++ [o]).

Definition load (l : loc) : M object :=
  fun h => match h !! l with
           | Some o => Some (o, h)
           | None => None
           end.

Definition store (l : loc) (o : object) : M unit :=
  fun h => if decide (l < length h)%nat then Some (tt, <[l := o]> h) else None.

Definition load_record (l : loc) : M (gmap string Z) :=
  let* o := load l in
  match o with ORecord props => ret props | _ => stuck end.

Definition load_array (l : loc) : M (list loc) :=
  let* o := load l in
  match o with OArray elems => ret elems | _ => stuck end.

Definition load_category (l : loc) : M Category :=
  let* o := load l in
  match o with OCategory c => ret c | _ => stuck end.

Fixpoint load_categories (elems : list loc) : M (list Category) :=
  match elems with
  | [] => ret []
  | l :: elems' =>
      let* c := load_category l in
      let* cs := load_categories elems' in
      ret (c :: cs)
  end.

(** The state variables of [Home] hold references. *)
Record state := mkRefs {
  categories : loc;
  scores : loc;
  customLabel : string;
  customDescription : string;
  assessments : loc;
  selectedComparisonId : option string;
}.

(** [setScores((prev) => ({ ...prev, [label]: value }))] *)
Definition handleScoreChange (label : string) (value : Z) (st : state) : M state :=
  let* prev := load_record (scores st) in
  let* next := alloc (ORecord (<[label := value]> prev)) in
  ret (mkRefs (categories st) next (customLabel st) (customDescription st)
         (assessments st) (selectedComparisonId st)).

(** [newCat] is a new object, [[...prev, newCat]] a new array and
    [{ ...prev, [newCat.label]: 5 }] a new record. *)
Definition handleAddCategory (now : Z) (st : state) : M state :=
  let trimmed := JsString.trim (customLabel st) in
  if negb (JsString.truthy trimmed) then ret st
  else
    let* elems := load_array (categories st) in
    let* cats := load_categories elems in
    if label_exists trimmed cats then ret st
    else
      let* newCat := alloc (OCategory (newCat_of now trimmed (customDescription st))) in
      let* next_categories := alloc (OArray (elems ++ [newCat])) in
      let* prev := load_record (scores st) in
      let* c := load_category newCat in
      let* next_scores := alloc (ORecord (<[cat_label c := 5]> prev)) in
      ret (mkRefs next_categories next_scores "" ""
             (assessments st) (selectedComparisonId st)).

(** The references of [elems] whose category passes [keep]. *)
Fixpoint filter_refs (keep : Category -> bool) (elems : list loc) : M (list loc) :=
  match elems with
  | [] => ret []
  | l :: elems' =>
      let* c := load_category l in
      let* rest := filter_refs keep elems' in
      ret (if keep c then l :: rest else rest)
  end.

(** [prev.filter(...)] is a new array of the kept references;
    [copy] is the new record [{ ...prev }], and [delete copy[cat.label]]
    writes into it. *)
Definition handleRemoveCategory (id : string) (st : state) : M state :=
  let* elems := load_array (categories st) in
  let* kept := filter_refs (fun c => negb (String.eqb (cat_id c) id)) elems in
  let* next_categories := alloc (OArray kept) in
  let* prev := load_record (scores st) in
  let* copy := alloc (ORecord prev) in
  let* cats := load_categories elems in
  let* _ :=
    match find (fun c => String.eqb (cat_id c) id) cats with
    | Some cat =>
        let* props := load_record copy in
        store copy (ORecord (delete (cat_label cat) props))
    | None => ret tt
    end in
  ret (mkRefs next_categories copy (customLabel st) (customDescription st)
         (assessments st) (selectedComparisonId st)).

(** The snapshot object holds references to the new record
    [{ ...scores }] and to the new array [[...categories]], whose
    elements are the category objects of the live array;
    [[snapshot, ...prev]] is a new array. *)
Definition handleSaveAssessment (id date time iso : string) (st : state) : M state :=
  let* prev := load_record (scores st) in
  let* scores_copy := alloc (ORecord prev) in
  let* elems := load_array (categories st) in
  let* categories_copy := alloc (OArray elems) in
  let* snapshot :=
    alloc (OSnapshot id ("Assessment " +:+ date +:+ " " +:+ time) iso
             scores_copy categories_copy) in
  let* old := load_array (assessments st) in
  let* next := alloc (OArray (snapshot :: old)) in
  ret (mkRefs (categories st) (scores st) (customLabel st) (customDescription st)
         next (Some id)).

(** Typing into the two fields of the form. *)
Definition set_form (label description : string) (st : state) : state :=
  mkRefs (categories st) (scores st) label description
    (assessments st) (selectedComparisonId st).

(** The operations that change the live registry and scores. *)
Inductive op :=
| SetScore (label : string) (value : Z)
| AddCategory (now : Z) (label description : string)
| RemoveCategory (id : string)
| Save (id date time iso : string).

Definition run_op (o : op) (st : state) : M state :=
  match o with
  | SetScore label value => handleScoreChange label value st
  | AddCategory now label description =>
      handleAddCategory now (set_form label description st)
  | RemoveCategory id => handleRemoveCategory id st
  | Save id date time iso => handleSaveAssessment id date time iso st
  end.

Fixpoint run_ops (os : list op) (st : state) : M state :=
  match os with
  | [] => ret st
  | o :: os' => let* st' := run_op o st in run_ops os' st'
  end.

(** *** Reading values back from the store *)

Definition read_record (h : heap) (l : loc) : option (gmap string Z) :=
  fst <$> load_record l h.

Definition read_categories (h : heap) (l : loc) : option (list Category) :=
  fst <$> (let* elems := load_array l in load_categories elems) h.

Definition read_snapshot (h : heap) (l : loc) : option StoredAssessment :=
  match h !! l with
  | Some (OSnapshot id name createdAt sc cs) =>
      match read_record h sc, read_categories h cs with
      | Some scores, Some cats =>
          Some (mkStoredAssessment id name createdAt scores cats)
      | _, _ => None
      end
  | _ => None
  end.

Definition read_assessments (h : heap) (l : loc) : option (list StoredAssessment) :=
  match h !! l with
  | Some (OArray elems) => mapM (read_snapshot h) elems
  | _ => None
  end.

(** The values a state of references stands for. *)
Definition read_state (h : heap) (st : state) : option State :=
  match read_categories h (categories st), read_record h (scores st),
        read_assessments h (assessments st) with
  | Some cats, Some scs, Some snaps =>
      Some (mkState cats scs (customLabel st) (customDescription st)
              snaps (selectedComparisonId st))
  | _, _, _ => None
  end.

(** The reference of the newest snapshot. *)
Definition newest (h : heap) (st : state) : option loc :=
  match h !! assessments st with
  | Some (OArray (l :: _)) => Some l
  | _ => None
  end.

(** The store and state of a fresh page. *)
Definition initial : state * heap :=
  let cats := map OCategory DEFAULT_CATEGORIES in
  let n := length cats in
  (mkRefs n (S n) "" "" (S (S n)) None,
   cats ++ [OArray (seq 0 n); ORecord initial_scores; OArray []]).

End Heap.

(** The value-level meaning of an operation. *)
Definition apply_op (o : Heap.op) (st : State) : State :=
  match o with
  | Heap.SetScore label value => handleScoreChange label value st
  | Heap.AddCategory now label description => addCategory now label description st
  | Heap.RemoveCategory id => handleRemoveCategory id st
  | Heap.Save id date time iso => handleSaveAssessment id date time iso st
  end.

Definition apply_ops (os : list Heap.op) (st : State) : State :=
  foldl (fun s o => apply_op o s) st os.

(** ** A reader of JSON texts

    [JSON.parse] is a builtin of the engine and stays a parameter of
    [loadAssessments].  The reader below follows the JSON grammar and is
    used to run the loader on concrete stored texts.  Number and string
    tokens are kept as they are written (escapes are checked, not
    decoded). *)

Module JsonText.

Definition code (c : ascii) : nat := nat_of_ascii c.

Definition is_ws (c : ascii) : bool :=
  let n := code c in
  (n =? 32)%nat || (n =? 9)%nat || (n =? 10)%nat || (n =? 13)%nat.

Definition is_digit (c : ascii) : bool :=
  let n := code c in (48 <=? n)%nat && (n <=? 57)%nat.

Definition is_hex (c : ascii) : bool :=
  let n := code c in
  is_digit c || ((65 <=? n)%nat && (n <=? 70)%nat)
  || ((97 <=? n)%nat && (n <=? 102)%nat).

(** One of the characters that may follow a backslash. *)
Definition is_escape (c : ascii) : bool :=
  let n := code c in
  existsb (Nat.eqb n) [34; 92; 47; 98; 102; 110; 114; 116]%nat.

Fixpoint skip_ws (s : list ascii) : list ascii :=
  match s with
  | c :: s' => if is_ws c then skip_ws s' else s
  | [] => []
  end.

Fixpoint digits (s : list ascii) : list ascii * list ascii :=
  match s with
  | c :: s' =>
      if is_digit c then let '(d, r) := digits s' in (c :: d, r) else ([], s)
  | [] => ([], [])
  end.

(** The characters of a string token after its opening quote. *)
Fixpoint string_body (s : list ascii) : option (list ascii * list ascii) :=
  match s with
  | [] => None
  | c :: r =>
      if (code c =? 34)%nat then Some ([], r)
      else if (code c =? 92)%nat then
        match r with
        | e :: r' =>
            if is_escape e then
              '(b, rest) ← string_body r'; Some (c :: e :: b, rest)
            else if (code e =? 117)%nat then
              match r' with
              | h1 :: h2 :: h3 :: h4 :: r'' =>
                  if forallb is_hex [h1; h2; h3; h4] then
                    '(b, rest) ← string_body r'';
                    Some (c :: e :: h1 :: h2 :: h3 :: h4 :: b, rest)
                  else None
              | _ => None
              end
            else None
        | [] => None
        end
      else if (code c <? 32)%nat then None
      else '(b, rest) ← string_body r; Some (c :: b, rest)
  end.

(** An optional minus sign, an integer part without a leading zero,
    an optional fraction and an optional exponent. *)
Definition number (s : list ascii) : option (list ascii * list ascii) :=
  let '(sign, s1) :=
    match s with
    | c :: r => if (code c =? 45)%nat then ([c], r) else ([], s)
    | [] => ([], s)
    end in
  let '(int, s2) := digits s1 in
  match int with
  | [] => None
  | d :: ds =>
      if (code d =? 48)%nat && negb (length ds =? 0)%nat then None
      else
        let frac :=
          match s2 with
          | c :: r =>
              if (code c =? 46)%nat then
                let '(f, s3) := digits r in
                match f with [] => None | _ => Some (c :: f, s3) end
              else Some ([], s2)
          | [] => Some ([], s2)
          end in
        '(f, s3) ← frac;
        let exp :=
          match s3 with
          | c :: r =>
              if (code c =? 101)%nat || (code c =? 69)%nat then
                let '(sg, r1) :=
                  match r with
                  | c1 :: r' =>
                      if (code c1 =? 43)%nat || (code c1 =? 45)%nat
                      then ([c1], r') else ([], r)
                  | [] => ([], r)
                  end in
                let '(e, s4) := digits r1 in
                match e with [] => None | _ => Some (c :: sg ++ e, s4) end
              else Some ([], s3)
          | [] => Some ([], s3)
          end in
        '(e, s4) ← exp;
        Some (sign ++ int ++ f ++ e, s4)
  end.

Definition starts_with (p s : list ascii) : option (list ascii) :=
  if bool_decide (take (length p) s = p) then Some (drop (length p) s) else None.

Fixpoint value (fuel : nat) (s : list ascii) : option (JSON * list ascii) :=
  match fuel with
  | O => None
  | S fuel =>
      match skip_ws s with
      | [] => None
      | c :: r =>
          if (code c =? 110)%nat then
            rest ← starts_with (list_ascii_of_string "ull") r; Some (JNull, rest)
          else if (code c =? 116)%nat then
            rest ← starts_with (list_ascii_of_string "rue") r; Some (JBool true, rest)
          else if (code c =? 102)%nat then
            rest ← starts_with (list_ascii_of_string "alse") r; Some (JBool false, rest)
          else if (code c =? 34)%nat then
            '(b, rest) ← string_body r; Some (JString (string_of_list_ascii b), rest)
          else if (code c =? 91)%nat then
            match skip_ws r with
            | c2 :: r2 =>
                if (code c2 =? 93)%nat then Some (JArray [], r2)
                else '(vs, rest) ← elements fuel r; Some (JArray vs, rest)
            | [] => None
            end
          else if (code c =? 123)%nat then
            match skip_ws r with
            | c2 :: r2 =>
                if (code c2 =? 125)%nat then Some (JObject [], r2)
                else '(ms, rest) ← members fuel r; Some (JObject ms, rest)
            | [] => None
            end
          else
            '(n, rest) ← number (c :: r); Some (JNumber (string_of_list_ascii n), rest)
      end
  end
with elements (fuel : nat) (s : list ascii) : option (list JSON * list ascii) :=
  match fuel with
  | O => None
  | S fuel =>
      '(v, r) ← value fuel s;
      match skip_ws r with
      | c :: r' =>
          if (code c =? 44)%nat then
            '(vs, rest) ← elements fuel r'; Some (v :: vs, rest)
          else if (code c =? 93)%nat then Some ([v], r')
          else None
      | [] => None
      end
  end
with members (fuel : nat) (s : list ascii)
    : option (list (string * JSON) * list ascii) :=
  match fuel with
  | O => None
  | S fuel =>
      match skip_ws s with
      | q :: r0 =>
          if (code q =? 34)%nat then
            '(k, r1) ← string_body r0;
            match skip_ws r1 with
            | colon :: r2 =>
                if (code colon =? 58)%nat then
                  '(v, r) ← value fuel r2;
                  match skip_ws r with
                  | c :: r' =>
                      if (code c =? 44)%nat then
                        '(ms, rest) ← members fuel r';
                        Some ((string_of_list_ascii k, v) :: ms, rest)
                      else if (code c =? 125)%nat then
                        Some ([(string_of_list_ascii k, v)], r')
                      else None
                  | [] => None
                  end
                else None
            | [] => None
            end
          else None
      | [] => None
      end
  end.

Definition parse (text : string) : option JSON :=
  let s := list_ascii_of_string text in
  '(v, rest) ← value (2 * length s + 2) s;
  match skip_ws rest with
  | [] => Some v
  | _ => None
  end.

End JsonText.

(** ** Auxiliary definitions of the statements *)

(** A string literal of JSON: [s] between double quotes. *)
Definition quoted (s : string) : string :=
  String JsString.dquote s +:+ String JsString.dquote "".

(** The ids of the built-in categories. *)
Definition builtin_ids : gset string :=
  list_to_set ["health"; "career"; "relationships"; "finance";
               "growth"; "fun"; "environment"; "spirituality"].

(** The labels that the add form meets are within ASCII: the label
    typed and the labels of the registry. *)
Definition ascii_labels (st : State) : Prop :=
  JsString.is_ascii (customLabel st) = true
  /\ Forall (fun c => JsString.is_ascii (cat_label c) = true) (categories st).

(** A score within the range of the slider. *)
Definition in_range (v : Z) : Prop := 0 <= v <= 10.


(** The registry and scores of the ranking example: A, B, C, D in this
    order with the scores 5, 5, 3, 5. *)
Definition example_categories : list Category :=
  [mkCategory "a" "A" ""; mkCategory "b" "B" "";
   mkCategory "c" "C" ""; mkCategory "d" "D" ""].

Definition example_scores : gmap string Z :=
  <["A" := 5]> (<["B" := 5]> (<["C" := 3]> (<["D" := 5]> ∅))).

(** What a reference stands for in a store. *)
Definition cat_at (h : Heap.heap) (l : Heap.loc) (c : Category) : Prop :=
  h !! l = Some (Heap.OCategory c).

Definition record_at (h : Heap.heap) (l : Heap.loc) (m : gmap string Z) : Prop :=
  h !! l = Some (Heap.ORecord m).

Definition cats_at (h : Heap.heap) (l : Heap.loc) (cs : list Category) : Prop :=
  exists elems, h !! l = Some (Heap.OArray elems) /\ Forall2 (cat_at h) elems cs.

Definition snap_at (h : Heap.heap) (l : Heap.loc) (a : StoredAssessment) : Prop :=
  exists sc cs, h !! l = Some (Heap.OSnapshot (sa_id a) (sa_name a) (sa_createdAt a) sc cs)
                /\ record_at h sc (sa_scores a) /\ cats_at h cs (sa_categories a).

Definition snaps_at (h : Heap.heap) (l : Heap.loc) (snaps : list StoredAssessment) : Prop :=
  exists elems, h !! l = Some (Heap.OArray elems) /\ Forall2 (snap_at h) elems snaps.

Definition state_at (h : Heap.heap) (st : Heap.state) (s : State) : Prop :=
  cats_at h (Heap.categories st) (categories s)
  /\ record_at h (Heap.scores st) (scores s)
  /\ snaps_at h (Heap.assessments st) (assessments s)
  /\ Heap.customLabel st = customLabel s
  /\ Heap.customDescription st = customDescription s
  /\ Heap.selectedComparisonId st = selectedComparisonId s.

(** The result of an operation: it runs, the store only grows and the
    new state stands for [s']. *)
Definition runs_to (m : Heap.M Heap.state) (h : Heap.heap) (s' : State) : Prop :=
  exists st' h', m h = Some (st', h') /\ h `prefix_of` h' /\ state_at h' st' s'.

(** The sum of all entries of a score mapping. *)
Definition scores_total (scs : gmap string Z) : Z :=
  foldr Z.add 0 ((map_to_list scs).*2).

(** A list of characters that does not start with white space. *)
Definition no_lead (l : list ascii) : Prop :=
  match l with [] => True | c :: _ => JsString.is_space c = false end.

(** A label as the registry keeps it: not empty and without white space
    at either end. *)
Definition label_ok (l : string) : Prop := l <> "" /\ JsString.trim l = l.

(** The registry and the score store fit: labels are well formed and
    pairwise distinct when case is ignored, and every category has a
    score entry. *)
Definition registry_ok (st : State) : Prop :=
  NoDup (map (fun c => JsString.toLowerCase (cat_label c)) (categories st))
  /\ Forall (fun c => label_ok (cat_label c) /\ is_Some (scores st !! cat_label c))
       (categories st).

(** A character of an id: [a-z0-9] or the hyphen. *)
Definition slug_char (c : ascii) : Prop :=
  JsString.is_lower_alnum c = true \/ c = "-"%char.

Definition id_ok (id : string) : Prop :=
  id <> "" /\ Forall slug_char (list_ascii_of_string id).

(** ** Persisting the history *)

Definition STORAGE_KEY : string := "wheel-of-life-assessments:v1".

(** The outcome of [getItem] on a store that can be read. *)
Definition getItem (key : string) (localStorage : gmap string string) : getItem_result :=
  Returns (localStorage !! key).

Section Save.
(** [JSON.stringify]; [None] stands for a raised error. *)
Variable JSON_stringify : list StoredAssessment -> option string.

(** [write_ok] tells that [setItem] does not raise (quota, denied
    storage); a raised error is caught and ignored. *)
Definition saveAssessments (has_window write_ok : bool)
    (assessments : list StoredAssessment) (localStorage : gmap string string)
    : gmap string string :=
  if negb has_window then localStorage
  else
    match JSON_stringify assessments with
    | None => localStorage
    | Some text =>
        if write_ok then <[STORAGE_KEY := text]> localStorage else localStorage
    end.

(** The effect of [Home] on [assessments]. *)
Definition persist_effect (has_window write_ok : bool) (st : State)
    (localStorage : gmap string string) : gmap string string :=
  if length (assessments st) is O then localStorage
  else saveAssessments has_window write_ok (assessments st) localStorage.
End Save.

(** ** The theme toggle ([src/components/ThemeToggle.tsx]) *)

Module ThemeToggle.

Inductive Theme := light | dark.

Definition text (t : Theme) : string :=
  match t with light => "light" | dark => "dark" end.

(** [matchMedia] is [None] when the window has no [matchMedia], else the
    [matches] of the query for a dark colour scheme.  A [getItem] that
    raises is not caught here: the result is [None]. *)
Definition getPreferredTheme (has_window : bool) (stored : getItem_result)
    (matchMedia : option bool) : option Theme :=
  if negb has_window then Some dark
  else
    match stored with
    | Raises => None
    | Returns stored =>
        if bool_decide (stored = Some "light") then Some light
        else if bool_decide (stored = Some "dark") then Some dark
        else Some (if default false matchMedia then dark else light)
    end.

(** What [applyTheme] writes to: the [data-theme] attribute of the
    document element and the local storage. *)
Record Page := mkPage {
  dataset_theme : option string;
  localStorage : gmap string string;
}.

Definition applyTheme (has_document write_ok : bool) (theme : Theme) (p : Page) : Page :=
  if negb has_document then p
  else
    mkPage (Some (text theme))
      (if write_ok then <["theme" := text theme]> (localStorage p) else localStorage p).

(** The mount effect: the preferred theme becomes the state and is
    applied. *)
Definition mount (has_window has_document write_ok : bool) (matchMedia : option bool)
    (p : Page) : option (Theme * Page) :=
  match getPreferredTheme has_window (getItem "theme" (localStorage p)) matchMedia with
  | Some initial => Some (initial, applyTheme has_document write_ok initial p)
  | None => None
  end.

Definition handleToggle (has_document write_ok : bool) (s : Theme * Page) : Theme * Page :=
  let next := match fst s with dark => light | light => dark end in
  (next, applyTheme has_document write_ok next (snd s)).

End ThemeToggle.

(** ** Exporting the chart *)

(** What [chart?.toBase64Image?.()] gives: nothing when the chart has no
    such method, a string, or some other value. *)
Inductive image_result :=
| NoMethod
| ImageString (url : string)
| OtherValue.

(** [handleExport] of [WheelChart]: the url that [onExport] is called
    with, [None] when it is not called.  [chart] is [chartRef.current]. *)
Definition WheelChart_handleExport (has_onExport : bool) (chart : option image_result)
    : option string :=
  if negb has_onExport then None
  else
    match chart with
    | None => None
    | Some (ImageString url) => if JsString.truthy url then Some url else None
    | Some _ => None
    end.

(** [handleExport] of [Home] on the state variable [exportUrl]; the
    download through a temporary link of the document is left out. *)
Definition Home_handleExport (dataUrl : string) (exportUrl : option string)
    : option string :=
  Some dataUrl.

(** A press of the download button of the page. *)
Definition export_click (exportUrl : option string) (chart : option image_result)
    : option string :=
  match WheelChart_handleExport true chart with
  | Some url => Home_handleExport url exportUrl
  | None => exportUrl
  end.

(** The text that the export plugin draws above the chart.  [Home]
    passes [userName || undefined]. *)
Definition exportInfo_label (userName : option string) (dateString : string) : string :=
  match userName with
  | Some name =>
      let trimmedName := JsString.trim name in
      if JsString.truthy trimmedName then trimmedName +:+ " · " +:+ dateString
      else dateString
  | None => dateString
  end.

Definition Home_userName (userName : string) : option string :=
  if JsString.truthy userName then Some userName else None.

(** ** A printer of JSON texts

    [JSON.stringify] is a parameter of [saveAssessments].  The printer
    below writes a history the way [JSON.stringify] lays it out (members
    in the order of the object literals of the program, no white space)
    and serves only to run the effect on concrete histories.  As in the
    reader, a string value holds its characters as they are written, so
    the quote and the backslash are escaped when a value is built.  It
    is not [JSON.stringify] in two respects: the members of a score
    record come in the order of the finite map, not in the order in
    which they were added, and control characters are left as they
    are. *)

Module JsonPrint.

Definition escape_char (c : ascii) : list ascii :=
  if (nat_of_ascii c =? 34)%nat || (nat_of_ascii c =? 92)%nat
  then [ascii_of_nat 92; c] else [c].

Definition escape (s : string) : string :=
  string_of_list_ascii (flat_map escape_char (list_ascii_of_string s)).

Fixpoint print (v : JSON) : string :=
  match v with
  | JNull => "null"
  | JBool b => if b then "true" else "false"
  | JNumber lexeme => lexeme
  | JString s => quoted s
  | JArray elems =>
      "[" +:+
      (fix items (l : list JSON) : string :=
         match l with
         | [] => ""
         | [x] => print x
         | x :: r => print x +:+ "," +:+ items r
         end) elems
      +:+ "]"
  | JObject members =>
      "{" +:+
      (fix items (l : list (string * JSON)) : string :=
         match l with
         | [] => ""
         | [(k, x)] => quoted k +:+ ":" +:+ print x
         | (k, x) :: r => quoted k +:+ ":" +:+ print x +:+ "," +:+ items r
         end) members
      +:+ "}"
  end.

Definition category_json (c : Category) : JSON :=
  JObject [("id", JString (escape (cat_id c)));
           ("label", JString (escape (cat_label c)));
           ("description", JString (escape (cat_description c)))].

Definition assessment_json (a : StoredAssessment) : JSON :=
  JObject [("id", JString (escape (sa_id a)));
           ("name", JString (escape (sa_name a)));
           ("createdAt", JString (escape (sa_createdAt a)));
           ("scores",
            JObject (map (fun kv => (escape kv.1, JNumber (pretty kv.2)))
                       (map_to_list (sa_scores a))));
           ("categories", JArray (map category_json (sa_categories a)))].

Definition stringify (assessments : list StoredAssessment) : option string :=
  Some (print (JArray (map assessment_json assessments))).

End JsonPrint.

(** The values that the slider of the page can send. *)
Definition slider_op (o : Heap.op) : Prop :=
  match o with
  | Heap.SetScore _ value => in_range value
  | _ => True
  end.

(** * Properties *)

Lemma append_assoc (a b c : string) : (a +:+ b) +:+ c = a +:+ (b +:+ c).
Proof.
  induction a as [|x a IH]; [reflexivity|].
  change (String x ((a +:+ b) +:+ c) = String x (a +:+ (b +:+ c))).
  now rewrite IH.
Qed.

(** ** Reading plain objects *)

Lemma inherited_true (key : string) :
  JsObject.inherited key = true <-> key ∈ JsObject.prototype_keys.
Proof. unfold JsObject.inherited. apply bool_decide_eq_true. Qed.

Lemma inherited_false (key : string) :
  JsObject.inherited key = false <-> key ∉ JsObject.prototype_keys.
Proof. unfold JsObject.inherited. apply bool_decide_eq_false. Qed.

(** A record whose own properties are all of its declared type. *)
Lemma get_Val {A} (m : gmap string A) (key : string) :
  JsObject.get (JsObject.Val <$> m) key
  = match m !! key with
    | Some a => Some (JsObject.Val a)
    | None => if JsObject.inherited key then Some (JsObject.Builtin key) else None
    end.
Proof. unfold JsObject.get. rewrite lookup_fmap. now destruct (m !! key). Qed.

(** ** The action table *)

Lemma suggestions_dom : dom suggestions = builtin_ids.
Proof. vm_compute. reflexivity. Qed.

Lemma suggestForCategory_fallback (id label : string) :
  id ∉ builtin_ids -> id ∉ JsObject.prototype_keys ->
  suggestForCategory id label = JsObject.Val (generic_suggestion label).
Proof.
  rewrite <- suggestions_dom. intros Hid Hp.
  apply not_elem_of_dom in Hid. apply inherited_false in Hp.
  unfold suggestForCategory. now rewrite get_Val, Hid, Hp.
Qed.

Lemma suggestForCategory_inherited (id label : string) :
  id ∈ JsObject.prototype_keys -> suggestForCategory id label = JsObject.Builtin id.
Proof.
  intros Hp. unfold suggestForCategory. rewrite get_Val.
  assert (Hn : suggestions !! id = None).
  { apply not_elem_of_dom. rewrite suggestions_dom. intros Hb.
    unfold JsObject.prototype_keys in Hp.
    repeat (apply elem_of_cons in Hp as [-> | Hp];
            [revert Hb; apply (bool_decide_unpack _); vm_compute; exact I|]).
    inversion Hp. }
  apply inherited_true in Hp. now rewrite Hn, Hp.
Qed.

Lemma generateInsights_actions (cats : list Category) (scs : gmap string Z) :
  actions (generateInsights cats scs)
  = map (fun c => suggestForCategory (cat_id c) (cat_label c)) (lowest_of cats scs).
Proof.
  unfold generateInsights, lowest_of, lowestSorted_of.
  destruct (active_of cats scs); reflexivity.
Qed.

(** C8: the action of a priority category is read by its id from a
    fixed table of eight entries (health, career, relationships,
    finance, growth, fun, environment, spirituality): each of these ids
    gives its own text whatever the label is, and an id that neither the
    table nor [Object.prototype] has, such as custom-creativity, gives
    the generic sentence with the label put in.  The table is a plain
    object, so an id that names a property of [Object.prototype] finds
    that property instead of the generic sentence: the id constructor,
    which the page derives from the label Constructor, gives the
    function that [Object.prototype] holds under this name. *)
Theorem C8_action_table :
  dom suggestions = builtin_ids
  /\ size suggestions = 8%nat
  /\ (forall cats scs,
        actions (generateInsights cats scs)
        = map (fun c => suggestForCategory (cat_id c) (cat_label c))
              (lowest_of cats scs))
  /\ (forall label,
        suggestForCategory "health" label
           = JsObject.Val "Pick one tiny habit this week (a 10‑minute walk, stretching, or lights‑out time) that would noticeably improve your energy."
        /\ suggestForCategory "career" label
           = JsObject.Val "Clarify your next small career move: a conversation, a course, or a project that moves you one step forward."
        /\ suggestForCategory "relationships" label
           = JsObject.Val "Schedule one meaningful check‑in or shared activity with someone important to you."
        /\ suggestForCategory "finance" label
           = JsObject.Val "Decide on one simple money habit: a weekly budget review, an automatic transfer, or tracking expenses."
        /\ suggestForCategory "growth" label
           = JsObject.Val "Choose one skill or topic to focus on this month and block out two learning sessions in your calendar."
        /\ suggestForCategory "fun" label
           = JsObject.Val "Plan a small, guilt‑free activity this week that’s just for enjoyment and recharge."
        /\ suggestForCategory "environment" label
           = JsObject.Val "Identify one small improvement to your space (decluttering, lighting, or setup) and schedule it."
        /\ suggestForCategory "spirituality" label
           = JsObject.Val "Set aside a short daily or weekly ritual (reflection, journaling, or quiet time) to reconnect with your values.")
  /\ (forall id label,
        id ∉ builtin_ids -> id ∉ JsObject.prototype_keys ->
        suggestForCategory id label
        = JsObject.Val
            ("Choose one small, realistic action this week that would move your "
             +:+ quoted label +:+ " score up by just one point."))
  /\ suggestForCategory "custom-creativity" "Creativity"
     = JsObject.Val
         ("Choose one small, realistic action this week that would move your "
          +:+ quoted "Creativity" +:+ " score up by just one point.")
  /\ (forall id label,
        id ∈ JsObject.prototype_keys ->
        suggestForCategory id label = JsObject.Builtin id)
  /\ (let st := handleScoreChange "Constructor" 0
                  (addCategory 0 "Constructor" "" initial_state) in
      last (categories st)
      = Some (mkCategory "constructor" "Constructor" default_description)
      /\ suggestForCategory "constructor" "Constructor" = JsObject.Builtin "constructor"
      /\ suggestForCategory "constructor" "Constructor"
         <> JsObject.Val
              ("Choose one small, realistic action this week that would move your "
               +:+ quoted "Constructor" +:+ " score up by just one point.")
      /\ head (actions (insights st)) = Some (JsObject.Builtin "constructor")).
Proof.
  split; [exact suggestions_dom|].
  split; [vm_compute; reflexivity|].
  split; [exact generateInsights_actions|].
  split; [intros label; repeat split; reflexivity|].
  split.
  - intros id label Hid Hp. rewrite (suggestForCategory_fallback _ _ Hid Hp).
    unfold generic_suggestion, quoted. do 2 f_equal.
    now rewrite append_assoc.
  - split; [vm_compute; reflexivity|].
    split; [exact suggestForCategory_inherited|].
    cbv zeta. split; [vm_compute; reflexivity|].
    split; [vm_compute; reflexivity|].
    split; [vm_compute; discriminate|].
    vm_compute. reflexivity.
Qed.

(** ** The chart data adapter *)

Lemma series_of_lookup (labels : list string) (m : gmap string (JsObject.value Z))
    (i : nat) (l : string) :
  labels !! i = Some l ->
  series_of labels m !! i
  = Some (JsObject.nullish (JsObject.get m l) (JsObject.Val 0)).
Proof.
  intros H. unfold series_of.
  change (map ?f labels) with (f <$> labels).
  now rewrite list_lookup_fmap, H.
Qed.

Lemma series_of_insert_absent (labels : list string) (m : gmap string (JsObject.value Z))
    (d : string) (v : JsObject.value Z) :
  d ∉ labels -> series_of labels (<[d := v]> m) = series_of labels m.
Proof.
  intros Hd. unfold series_of, JsObject.get. apply map_ext_in. intros l Hl.
  apply list_elem_of_In in Hl.
  rewrite lookup_insert_ne; [reflexivity|]. intros ->. contradiction.
Qed.

Lemma series_of_delete_absent (labels : list string) (m : gmap string (JsObject.value Z))
    (d : string) :
  d ∉ labels -> series_of labels (delete d m) = series_of labels m.
Proof.
  intros Hd. unfold series_of, JsObject.get. apply map_ext_in. intros l Hl.
  apply list_elem_of_In in Hl.
  rewrite lookup_delete_ne; [reflexivity|]. intros ->. contradiction.
Qed.

(** The value that the memo of [Home] writes under the key [__proto__]
    is a number or [Object.prototype] itself, the two cases in which the
    setter changes nothing. *)
Lemma scoresByLabel_proto_write (found : StoredAssessment) :
  let v := JsObject.nullish (JsObject.get (JsObject.Val <$> sa_scores found) "__proto__")
             (JsObject.Val 0) in
  v = JsObject.Builtin "__proto__" \/ exists z, v = JsObject.Val z.
Proof.
  cbv zeta. rewrite get_Val.
  destruct (sa_scores found !! "__proto__") as [z|]; [right; now exists z | now left].
Qed.

(** The own properties of the scores that the memo of [Home] builds:
    one for every label of the categories of the snapshot, except
    [__proto__]. *)
Lemma scoresByLabel_lookup (found : StoredAssessment) (l : string) :
  scoresByLabel found !! l
  = if bool_decide (l ∈ map cat_label (sa_categories found) /\ l <> "__proto__")
    then Some (JsObject.nullish (JsObject.get (JsObject.Val <$> sa_scores found) l)
                 (JsObject.Val 0))
    else None.
Proof.
  unfold scoresByLabel.
  set (w := fun k => JsObject.nullish (JsObject.get (JsObject.Val <$> sa_scores found) k)
                       (JsObject.Val 0)).
  assert (H : forall (cs : list Category) (acc : gmap string (JsObject.value Z)),
            acc !! "__proto__" = None ->
            foldl (fun acc c => JsObject.set (cat_label c) (w (cat_label c)) acc) acc cs !! l
            = if bool_decide (l ∈ map cat_label cs /\ l <> "__proto__")
              then Some (w l) else acc !! l).
  { induction cs as [|c cs IH]; intros acc Hacc.
    - rewrite bool_decide_eq_false_2; [reflexivity|].
      intros [Hin _]. inversion Hin.
    - change (foldl ?f acc (c :: cs)) with (foldl f (f acc c) cs). cbv beta.
      assert (Hstep : JsObject.set (cat_label c) (w (cat_label c)) acc
                      = if String.eqb (cat_label c) "__proto__" then acc
                        else <[cat_label c := w (cat_label c)]> acc).
      { unfold JsObject.set. destruct (String.eqb (cat_label c) "__proto__") eqn:E;
          [|reflexivity].
        apply String.eqb_eq in E. rewrite E, bool_decide_eq_true_2; [reflexivity | exact Hacc]. }
      rewrite Hstep. clear Hstep.
      destruct (String.eqb (cat_label c) "__proto__") eqn:E.
      + apply String.eqb_eq in E. rewrite (IH acc Hacc).
        destruct (decide (l ∈ map cat_label cs /\ l <> "__proto__")) as [Hin | Hin].
        * rewrite !bool_decide_eq_true_2; [reflexivity | | exact Hin].
          destruct Hin as [Hin Hp]. split; [now right | exact Hp].
        * rewrite (bool_decide_eq_false_2 _ Hin), bool_decide_eq_false_2; [reflexivity|].
          intros [Hc Hp]. apply Hin. split; [|exact Hp].
          change (map cat_label (c :: cs)) with (cat_label c :: map cat_label cs) in Hc.
          apply elem_of_cons in Hc as [Hc | Hc]; [congruence | exact Hc].
      + apply String.eqb_neq in E.
        rewrite IH by (now rewrite lookup_insert_ne).
        destruct (decide (l ∈ map cat_label cs /\ l <> "__proto__")) as [Hin | Hin].
        * rewrite !bool_decide_eq_true_2; [reflexivity | | exact Hin].
          destruct Hin as [Hin Hp]. split; [now right | exact Hp].
        * rewrite (bool_decide_eq_false_2 _ Hin).
          destruct (decide (cat_label c = l)) as [<- | Hne].
          -- rewrite lookup_insert_eq, bool_decide_eq_true_2; [reflexivity|].
             split; [now left | exact E].
          -- rewrite lookup_insert_ne by exact Hne.
             rewrite bool_decide_eq_false_2; [reflexivity|].
             intros [Hc Hp]. apply Hin. split; [|exact Hp].
             change (map cat_label (c :: cs)) with (cat_label c :: map cat_label cs) in Hc.
             apply elem_of_cons in Hc as [Hc | Hc]; [now symmetry in Hc | exact Hc]. }
  rewrite H by apply lookup_empty. now rewrite lookup_empty.
Qed.

(** What the chart reads under a label in the scores built by the memo. *)
Lemma get_scoresByLabel (found : StoredAssessment) (l : string) :
  JsObject.get (scoresByLabel found) l
  = if bool_decide (l ∈ map cat_label (sa_categories found) /\ l <> "__proto__")
    then Some (JsObject.nullish (JsObject.get (JsObject.Val <$> sa_scores found) l)
                 (JsObject.Val 0))
    else if JsObject.inherited l then Some (JsObject.Builtin l) else None.
Proof.
  unfold JsObject.get at 1. rewrite scoresByLabel_lookup.
  now case_bool_decide.
Qed.

(** The chart of the page has the labels of the registry, in its order,
    and the live scores as its first series. *)
Lemma chart_current (st : State) :
  chart_labels (chart st) = map cat_label (categories st)
  /\ ds_data <$> head (chart_datasets (chart st))
     = Some (map (fun c => JsObject.nullish
                             (JsObject.get (JsObject.Val <$> scores st) (cat_label c))
                             (JsObject.Val 0))
               (categories st)).
Proof.
  split; [reflexivity|]. unfold chart, WheelChart_data. simpl. f_equal.
  unfold currentValues, series_of, currentCategoriesLabels.
  now rewrite map_map.
Qed.

(** C2: with a comparison snapshot, the chart has the current labels and
    two series over them; the second series holds, for each current
    label, the score that the scores of the snapshot have under that
    label, and 0 when they have none and the label is no property name
    of [Object.prototype].  A label that only the snapshot has is no
    label of the chart, and its entry changes neither series.  Labels
    A, B, C and snapshot scores A:1, B:2 give the series 1, 2, 0.  The
    scores are a plain object: a current label that the snapshot lacks
    and that names a property of [Object.prototype], such as
    constructor, reads that property and not 0; the page reaches this
    by adding a category labelled constructor after a save.  The scores
    that the page hands over have an own entry for every label of the
    categories of the stored snapshot except [__proto__], holding what
    the stored scores give under the label; so the series of the page
    holds the stored score under the current labels that are labels of
    the stored categories, and under the others what an empty record
    gives. *)
Theorem C2_comparison_series (labels : list string) (currentScores : gmap string Z)
    (snap : AssessmentSnapshot) :
  let d := WheelChart_data labels currentScores (Some snap) in
  chart_labels d = labels
  /\ map ds_data (chart_datasets d)
     = [map (fun l => match currentScores !! l with
                      | Some v => JsObject.Val v
                      | None => if bool_decide (l ∈ JsObject.prototype_keys)
                                then JsObject.Builtin l else JsObject.Val 0
                      end) labels;
        map (fun l => match snap_scores snap !! l with
                      | Some v => v
                      | None => if bool_decide (l ∈ JsObject.prototype_keys)
                                then JsObject.Builtin l else JsObject.Val 0
                      end) labels]
  /\ (forall i l, labels !! i = Some l ->
        forall cmp, map ds_data (chart_datasets d) !! 1%nat = Some cmp ->
        (forall v, snap_scores snap !! l = Some v -> cmp !! i = Some v)
        /\ (snap_scores snap !! l = None -> l ∉ JsObject.prototype_keys ->
            cmp !! i = Some (JsObject.Val 0))
        /\ (snap_scores snap !! l = None -> l ∈ JsObject.prototype_keys ->
            cmp !! i = Some (JsObject.Builtin l)))
  /\ (forall dl v, dl ∉ labels ->
        WheelChart_data labels currentScores
          (Some (mkAssessmentSnapshot (snap_id snap) (snap_name snap)
                   (snap_createdAt snap) (<[dl := v]> (snap_scores snap))))
        = WheelChart_data labels currentScores
            (Some (mkAssessmentSnapshot (snap_id snap) (snap_name snap)
                     (snap_createdAt snap) (delete dl (snap_scores snap)))))
  /\ (forall found l,
        scoresByLabel found !! l
        = if bool_decide (l ∈ map cat_label (sa_categories found) /\ l <> "__proto__")
          then Some (match sa_scores found !! l with
                     | Some v => JsObject.Val v
                     | None => if bool_decide (l ∈ JsObject.prototype_keys)
                               then JsObject.Builtin l else JsObject.Val 0
                     end)
          else None)
  /\ (forall found,
        comparisonValues labels
          (Some (mkAssessmentSnapshot (sa_id found) (sa_name found) (sa_createdAt found)
                   (scoresByLabel found)))
        = Some (map (fun l =>
                       if bool_decide (l ∈ map cat_label (sa_categories found)
                                       /\ l <> "__proto__")
                       then match sa_scores found !! l with
                            | Some v => JsObject.Val v
                            | None => if bool_decide (l ∈ JsObject.prototype_keys)
                                      then JsObject.Builtin l else JsObject.Val 0
                            end
                       else if bool_decide (l ∈ JsObject.prototype_keys)
                            then JsObject.Builtin l else JsObject.Val 0)
                  labels))
  /\ comparisonValues ["A"; "B"; "C"]
       (Some (mkAssessmentSnapshot "s" "n" "t"
                (JsObject.Val <$> <["A" := 1]> (<["B" := 2]> ∅))))
     = Some [JsObject.Val 1; JsObject.Val 2; JsObject.Val 0]
  /\ map ds_data
       (chart_datasets
          (WheelChart_data ["A"; "B"; "C"] (<["A" := 4]> (<["B" := 5]> (<["C" := 6]> ∅)))
             (Some (mkAssessmentSnapshot "s" "n" "t"
                      (JsObject.Val <$> <["A" := 1]> (<["B" := 2]> (<["D" := 9]> ∅)))))))
     = [[JsObject.Val 4; JsObject.Val 5; JsObject.Val 6];
        [JsObject.Val 1; JsObject.Val 2; JsObject.Val 0]]
  /\ comparisonValues ["A"; "constructor"]
       (Some (mkAssessmentSnapshot "s" "n" "t" (JsObject.Val <$> <["A" := 1]> ∅)))
     = Some [JsObject.Val 1; JsObject.Builtin "constructor"]
  /\ (let st := addCategory 0 "constructor" ""
                  (handleSaveAssessment "s1" "d" "t" "iso" initial_state) in
      map ds_data (chart_datasets (chart st))
      = [replicate 9 (JsObject.Val 5);
         replicate 8 (JsObject.Val 5) ++ [JsObject.Builtin "constructor"]]).
Proof.
  cbv zeta.
  assert (Hget : forall (o : gmap string (JsObject.value Z)) l,
            JsObject.nullish (JsObject.get o l) (JsObject.Val 0)
            = match o !! l with
              | Some v => v
              | None => if bool_decide (l ∈ JsObject.prototype_keys)
                        then JsObject.Builtin l else JsObject.Val 0
              end).
  { intros o l. unfold JsObject.get, JsObject.inherited.
    destruct (o !! l); [reflexivity|]. now case_bool_decide. }
  split; [reflexivity|]. split.
  { unfold WheelChart_data, comparisonValues, currentValues, series_of. simpl.
    f_equal; [|f_equal]; apply map_ext; intros l; rewrite Hget; [|reflexivity].
    rewrite lookup_fmap. now destruct (currentScores !! l). }
  split.
  { intros i l Hl cmp Hcmp. simpl in Hcmp. injection Hcmp as <-.
    rewrite (series_of_lookup labels (snap_scores snap) i l Hl), Hget.
    split; [|split].
    - now intros v ->.
    - intros -> Hp. now rewrite bool_decide_eq_false_2.
    - intros -> Hp. now rewrite bool_decide_eq_true_2. }
  split.
  { intros dl v Hdl. unfold WheelChart_data, comparisonValues. simpl.
    now rewrite series_of_insert_absent, series_of_delete_absent. }
  split.
  { intros found l. rewrite scoresByLabel_lookup. case_bool_decide; [|reflexivity].
    rewrite Hget, lookup_fmap. now destruct (sa_scores found !! l). }
  split.
  { intros found. unfold comparisonValues, series_of. simpl. f_equal.
    apply map_ext. intros l. rewrite get_scoresByLabel.
    case_bool_decide.
    - simpl. rewrite Hget, lookup_fmap. now destruct (sa_scores found !! l).
    - unfold JsObject.inherited. now case_bool_decide. }
  split; [vm_compute; reflexivity|].
  split; [vm_compute; reflexivity|].
  split; [vm_compute; reflexivity|].
  vm_compute. reflexivity.
Qed.

(** ** Setting a score *)

(** C6, as the code has it: set-score stores the given value under the
    label as it is, for every value, and keeps every other entry; it
    neither rejects nor clamps.  A value within 0..10 keeps a store
    whose values are all within 0..10 in that state. *)
Theorem C6_set_score_stores_value (label : string) (value : Z) (st : State) :
  let st' := handleScoreChange label value st in
  scores st' !! label = Some value
  /\ (forall l, l <> label -> scores st' !! l = scores st !! l)
  /\ categories st' = categories st
  /\ (in_range value ->
      map_Forall (fun _ v => in_range v) (scores st) ->
      map_Forall (fun _ v => in_range v) (scores st')).
Proof.
  cbv zeta. unfold handleScoreChange. simpl.
  split; [|split; [|split]].
  - apply lookup_insert_eq.
  - intros l Hl. now apply lookup_insert_ne.
  - reflexivity.
  - intros Hv Hall. now apply map_Forall_insert_2.
Qed.

Lemma C6_witness :
  map_Forall (fun _ v => in_range v)
    (scores (handleScoreChange "Finances" 10 initial_state)).
Proof.
  apply (C6_set_score_stores_value "Finances" 10 initial_state).
  - unfold in_range. lia.
  - apply map_Forall_lookup. intros l v Hl.
    assert (Hv : v = 5).
    { revert Hl. unfold initial_state, initial_scores. simpl.
      repeat (rewrite lookup_insert; case_decide; [congruence|]).
      rewrite lookup_empty. discriminate. }
    subst v. unfold in_range. lia.
Defined.

(** The claim of C6 fails: the value 11 is outside 0..10, the store
    changes, and the value stored is 11, not the clamp 10. *)
Lemma C6_counterexample :
  let st' := handleScoreChange "Health & Energy" 11 initial_state in
  ~ (scores st' = scores initial_state
     \/ scores st' !! "Health & Energy" = Some (Z.max 0 (Z.min 10 11))).
Proof.
  cbv zeta. intros [H | H].
  - apply (f_equal (fun m => m !! "Health & Energy")) in H.
    vm_compute in H. discriminate.
  - vm_compute in H. discriminate.
Qed.

(** ** Saving a snapshot *)

(** The buttons of the history: pressing the selected snapshot clears
    the comparison, pressing another one selects it. *)
Lemma toggle_comparison_spec (id : string) (st : State) :
  selectedComparisonId (toggle_comparison id st)
  = if decide (selectedComparisonId st = Some id) then None else Some id.
Proof.
  unfold toggle_comparison. simpl.
  case_bool_decide; case_decide; congruence.
Qed.

(** C10: a save puts the new snapshot in front of the history and makes
    its id the selected comparison, whatever was selected before; the
    comparison handed to the chart is then the new snapshot. *)
Theorem C10_save_selects_new (id date time iso : string) (st : State) :
  let st' := handleSaveAssessment id date time iso st in
  let snapshot := snapshot_of id date time iso st in
  assessments st' = snapshot :: assessments st
  /\ selectedComparisonId st' = Some id
  /\ sa_id snapshot = id
  /\ (id <> "" ->
      comparisonSnapshot st'
      = Some (mkAssessmentSnapshot id (sa_name snapshot) iso (scoresByLabel snapshot))).
Proof.
  cbv zeta. split; [|split; [|split]]; try reflexivity.
  intros Hid. unfold comparisonSnapshot, handleSaveAssessment. simpl.
  destruct id as [|c id]; [contradiction|]. simpl.
  rewrite Ascii.eqb_refl, String.eqb_refl. reflexivity.
Qed.

Lemma C10_witness :
  comparisonSnapshot (handleSaveAssessment "id-1" "1/2/2026" "10:30 AM" "iso" initial_state)
  = Some (mkAssessmentSnapshot "id-1" "Assessment 1/2/2026 10:30 AM" "iso"
            (scoresByLabel (snapshot_of "id-1" "1/2/2026" "10:30 AM" "iso" initial_state))).
Proof.
  apply (C10_save_selects_new "id-1" "1/2/2026" "10:30 AM" "iso" initial_state).
  discriminate.
Defined.

(** ** Loading the history *)

(** C9: the loader returns a list in every case, and the empty list when
    there is no [window], when reading the store raises, when nothing or
    the empty text is stored, when the text does not parse and when it
    parses to something that is no array (such as the JSON string
    "not an array"). *)
Theorem C9_load_falls_back (JSON_parse : string -> option JSON)
    (has_window : bool) (stored : getItem_result) :
  (has_window = false
   \/ stored = Raises
   \/ stored = Returns None
   \/ stored = Returns (Some "")
   \/ (exists raw, stored = Returns (Some raw) /\ JSON_parse raw = None)
   \/ (exists raw v, stored = Returns (Some raw) /\ JSON_parse raw = Some v
                     /\ forall elems, v <> JArray elems)) ->
  loadAssessments JSON_parse has_window stored = [].
Proof.
  unfold loadAssessments.
  intros [-> | H]; [reflexivity|].
  destruct has_window; [|reflexivity]. simpl.
  destruct H as [-> | [-> | [-> | [(raw & -> & Hp) | (raw & v & -> & Hp & Hv)]]]];
    try reflexivity.
  - destruct (JsString.truthy raw); simpl; [|reflexivity]. now rewrite Hp.
  - destruct (JsString.truthy raw); simpl; [|reflexivity]. rewrite Hp.
    destruct v; try reflexivity. now contradiction (Hv elems).
Qed.

Lemma C9_witness :
  loadAssessments JsonText.parse true (Returns (Some (quoted "not an array"))) = []
  /\ loadAssessments JsonText.parse true (Returns (Some "not an array")) = []
  /\ loadAssessments JsonText.parse true (Returns None) = [].
Proof.
  split; [|split].
  - apply C9_load_falls_back. do 5 right.
    exists (quoted "not an array"), (JString "not an array").
    split; [reflexivity|]. split; [vm_compute; reflexivity|]. discriminate.
  - apply C9_load_falls_back. do 4 right. left.
    exists "not an array". split; [reflexivity|]. vm_compute. reflexivity.
  - apply C9_load_falls_back. right. right. left. reflexivity.
Defined.

(** ** Adding a category *)

Lemma truthy_false (s : string) : JsString.truthy s = false <-> s = "".
Proof. destruct s; simpl; split; congruence. Qed.

Lemma truthy_true (s : string) : JsString.truthy s = true <-> s <> "".
Proof. destruct s; simpl; split; congruence. Qed.

Lemma label_exists_iff (trimmed : string) (cats : list Category) :
  label_exists trimmed cats = true
  <-> exists c, c ∈ cats
        /\ JsString.toLowerCase (cat_label c) = JsString.toLowerCase trimmed.
Proof.
  unfold label_exists. rewrite existsb_exists. split.
  - intros (c & Hin & He). exists c. split; [now apply list_elem_of_In|].
    now apply String.eqb_eq.
  - intros (c & Hin & He). exists c. split; [now apply list_elem_of_In|].
    now apply String.eqb_eq.
Qed.

Lemma string_of_list_ascii_nonempty (l : list ascii) :
  l <> [] -> string_of_list_ascii l <> "".
Proof. destruct l; [congruence | discriminate]. Qed.

Lemma list_ascii_of_string_nonempty (s : string) :
  s <> "" -> list_ascii_of_string s <> [].
Proof. destruct s; [congruence | discriminate]. Qed.

Lemma replace_runs_nonempty (s : list ascii) :
  s <> [] -> JsString.replace_runs false s <> [].
Proof.
  destruct s as [|c s]; [congruence|]. intros _. simpl.
  destruct (JsString.is_lower_alnum c); discriminate.
Qed.

Lemma derived_id_nonempty (trimmed : string) :
  trimmed <> "" -> derived_id trimmed <> "".
Proof.
  intros H. unfold derived_id, JsString.replace_non_alnum, JsString.toLowerCase.
  apply string_of_list_ascii_nonempty, replace_runs_nonempty.
  rewrite list_ascii_of_string_of_list_ascii.
  apply list_ascii_of_string_nonempty in H.
  destruct (list_ascii_of_string trimmed); [congruence | discriminate].
Qed.

(** A run of characters outside [a-z0-9] that is followed by the end
    or by a character of the class becomes one hyphen, and the
    characters of the class before it stay. *)
Lemma replace_runs_run (u r v : list ascii) :
  Forall (fun c => JsString.is_lower_alnum c = true) u ->
  Forall (fun c => JsString.is_lower_alnum c = false) r ->
  r <> [] ->
  (forall c v', v = c :: v' -> JsString.is_lower_alnum c = true) ->
  JsString.replace_runs false (u ++ r ++ v)
  = u ++ "-"%char :: JsString.replace_runs false v.
Proof.
  intros Hu Hr Hne Hv.
  induction Hu as [|c u Hc Hu IH]; simpl.
  - destruct Hr as [|c0 r Hc0 Hr]; [congruence|]. simpl. rewrite Hc0. f_equal.
    clear Hne Hc0. induction Hr as [|c1 r Hc1 Hr IH]; simpl.
    + destruct v as [|c2 v']; [reflexivity|]. simpl.
      now rewrite (Hv c2 v' eq_refl).
    + now rewrite Hc1.
  - rewrite Hc. now f_equal.
Qed.

Lemma replace_runs_alnum (u : list ascii) :
  Forall (fun c => JsString.is_lower_alnum c = true) u ->
  JsString.replace_runs false u = u.
Proof.
  induction 1 as [|c u Hc _ IH]; simpl; [reflexivity|].
  rewrite Hc. now f_equal.
Qed.

Lemma replace_runs_class (b : bool) (s : list ascii) :
  Forall (fun c => JsString.is_lower_alnum c = true \/ c = "-"%char)
    (JsString.replace_runs b s).
Proof.
  revert b. induction s as [|c s IH]; intros b; simpl; [constructor|].
  destruct (JsString.is_lower_alnum c) eqn:Hc.
  - constructor; [now left | apply IH].
  - destruct b; [apply IH|]. constructor; [now right | apply IH].
Qed.

(** C3, as the code has it, for labels within ASCII (the label typed
    and those of the registry): adding is a no-op when the trimmed label
    is empty or some category has the same label up to case; otherwise
    one category is appended whose label is the trimmed label and whose
    id is the lowercased label with each run of characters outside a-z
    and 0-9 turned into one hyphen (this id is never empty, so the
    time-based id is not used), and the score of the new label is set
    to 5.  The replacement keeps a stretch of
    characters of the class and turns a whole run of other characters,
    up to the next character of the class or the end, into one hyphen.
    A run at the end of the label also becomes a hyphen:
    "Side Projects!!" gets the id side-projects-. *)
Theorem C3_add_category (now : Z) (st : State) :
  let trimmed := JsString.trim (customLabel st) in
  let st' := handleAddCategory now st in
  (ascii_labels st ->
   (trimmed = ""
    \/ exists c, c ∈ categories st
         /\ JsString.toLowerCase (cat_label c) = JsString.toLowerCase trimmed) ->
   st' = st)
  /\ (ascii_labels st ->
      trimmed <> "" ->
      (forall c, c ∈ categories st ->
         JsString.toLowerCase (cat_label c) <> JsString.toLowerCase trimmed) ->
      exists newCat,
        categories st' = categories st ++ [newCat]
        /\ cat_label newCat = trimmed
        /\ cat_id newCat = JsString.replace_non_alnum (JsString.toLowerCase trimmed)
        /\ cat_id newCat <> ""
        /\ scores st' = <[trimmed := 5]> (scores st)
        /\ scores st' !! trimmed = Some 5)
  /\ (forall u r v : list ascii,
        Forall (fun c => JsString.is_lower_alnum c = true) u ->
        Forall (fun c => JsString.is_lower_alnum c = false) r ->
        r <> [] ->
        (forall c v', v = c :: v' -> JsString.is_lower_alnum c = true) ->
        JsString.replace_runs false (u ++ r ++ v)
        = u ++ "-"%char :: JsString.replace_runs false v)
  /\ (forall u : list ascii,
        Forall (fun c => JsString.is_lower_alnum c = true) u ->
        JsString.replace_runs false u = u)
  /\ cat_id <$> last (categories (addCategory now "Side Projects!!" "" initial_state))
     = Some "side-projects-".
Proof.
  cbv zeta. unfold handleAddCategory. split; [|split; [|split; [|split]]].
  - intros _ [H | H].
    + apply truthy_false in H. now rewrite H.
    + apply label_exists_iff in H. rewrite H.
      now destruct (JsString.truthy _).
  - intros _ Hne Hfresh.
    apply truthy_true in Hne as Ht. rewrite Ht. simpl.
    destruct (label_exists _ _) eqn:He.
    { apply label_exists_iff in He as (c & Hc & Heq). now destruct (Hfresh c Hc). }
    pose proof (derived_id_nonempty _ Hne) as Hid.
    eexists. split; [reflexivity|]. simpl.
    apply truthy_true in Hid as Hid'. rewrite Hid'.
    split; [reflexivity|]. split; [reflexivity|]. split; [exact Hid|].
    split; [reflexivity|]. apply lookup_insert_eq.
  - exact replace_runs_run.
  - exact replace_runs_alnum.
  - vm_compute. reflexivity.
Qed.

Lemma C3_witness :
  handleAddCategory 0
    (mkState DEFAULT_CATEGORIES initial_scores "  finances " "" [] None)
  = mkState DEFAULT_CATEGORIES initial_scores "  finances " "" [] None.
Proof.
  apply (C3_add_category 0
           (mkState DEFAULT_CATEGORIES initial_scores "  finances " "" [] None)).
  { split; [reflexivity|]. unfold categories, DEFAULT_CATEGORIES.
    repeat (constructor; [reflexivity|]). constructor. }
  right. exists (mkCategory "finance" "Finances" "Income, savings, security, and money habits.").
  split; [|vm_compute; reflexivity].
  apply list_elem_of_In. simpl. tauto.
Defined.

(** The example of C3 fails: the id derived for "Side Projects!!" is
    not side-projects. *)
Lemma C3_counterexample :
  cat_id <$> last (categories (addCategory 0 "Side Projects!!" "" initial_state))
  <> Some "side-projects".
Proof. vm_compute. discriminate. Qed.

(** ** Removing a category *)

Lemma filter_all {A} (P : A -> Prop) `{forall x, Decision (P x)} (l : list A) :
  Forall P l -> filter P l = l.
Proof.
  induction 1 as [|x l Hx Hl IH]; [reflexivity|].
  rewrite filter_cons_True by assumption. now rewrite IH.
Qed.

Lemma filter_other_ids_length (id : string) (cats : list Category) :
  NoDup (map cat_id cats) ->
  id ∈ map cat_id cats ->
  S (length (filter (fun c => cat_id c <> id) cats)) = length cats.
Proof.
  induction cats as [|c cats IH]; intros Hnd Hin.
  - now apply elem_of_nil in Hin.
  - change (map cat_id (c :: cats)) with (cat_id c :: map cat_id cats) in *.
    apply NoDup_cons in Hnd as [Hc Hnd].
    apply elem_of_cons in Hin as [-> | Hin].
    + rewrite filter_cons_False by (intros H; now apply H).
      rewrite filter_all; [reflexivity|].
      apply Forall_forall. intros c' Hc' Heq. apply Hc. rewrite <- Heq.
      apply list_elem_of_fmap. now exists c'.
    + rewrite filter_cons_True.
      * simpl. f_equal. now apply IH.
      * intros Heq. rewrite Heq in Hc. contradiction.
Qed.



(** Two added categories may share an id: the labels "A B" and "A_B"
    both give a-b.  The remove button of one of them then takes both
    away, here from a registry of five. *)
Lemma shared_id_removal :
  let st5 := Nat.iter 5 (click_remove 0)
               (addCategory 0 "A_B" "" (addCategory 0 "A B" "" initial_state)) in
  map cat_id (categories st5) = ["fun"; "environment"; "spirituality"; "a-b"; "a-b"]
  /\ length (categories (click_remove 3 st5)) = 3%nat.
Proof. vm_compute. split; reflexivity. Qed.


(** ** The ranking of the insight engine *)

Section SortFacts.
Context {A : Type}.
Variable key : A -> Z.

(** The comparator of the program is a difference of keys. *)
Let cmp (a b : A) : Z := key a - key b.
Let le (a b : A) : Prop := key a <= key b.

Lemma sort_insert_Permutation (x : A) (l : list A) :
  Permutation (sort_insert cmp x l) (x :: l).
Proof.
  induction l as [|y l IH]; simpl; [reflexivity|].
  destruct (cmp x y <=? 0); [reflexivity|].
  rewrite IH. apply perm_swap.
Qed.

Lemma sort_Permutation (l : list A) : Permutation (sort cmp l) l.
Proof.
  induction l as [|x l IH]; simpl; [reflexivity|].
  rewrite sort_insert_Permutation. now constructor.
Qed.

Lemma sort_insert_StronglySorted (x : A) (l : list A) :
  StronglySorted le l -> StronglySorted le (sort_insert cmp x l).
Proof.
  induction 1 as [|y l Hs IH Hy]; simpl.
  - repeat constructor.
  - destruct (cmp x y <=? 0) eqn:Hc.
    + apply Z.leb_le in Hc. unfold cmp in Hc.
      constructor; [now constructor|].
      constructor; [unfold le; lia|].
      eapply Forall_impl; [exact Hy|]. unfold le. intros z Hz. simpl in *. lia.
    + apply Z.leb_gt in Hc. unfold cmp in Hc.
      constructor; [exact IH|].
      rewrite sort_insert_Permutation.
      constructor; [unfold le; lia | exact Hy].
Qed.

Lemma sort_StronglySorted (l : list A) : StronglySorted le (sort cmp l).
Proof.
  induction l as [|x l IH]; simpl; [constructor|].
  now apply sort_insert_StronglySorted.
Qed.

(** Inserting moves [x] only past elements of a smaller key, so the
    elements of each key keep their order. *)
Lemma sort_insert_stable (v : Z) (x : A) (l : list A) :
  filter (fun a => key a = v) (sort_insert cmp x l)
  = filter (fun a => key a = v) (x :: l).
Proof.
  induction l as [|y l IH]; simpl; [reflexivity|].
  destruct (cmp x y <=? 0) eqn:Hc; [reflexivity|].
  apply Z.leb_gt in Hc. unfold cmp in Hc.
  rewrite (filter_cons _ y), IH, !(filter_cons _ x), !(filter_cons _ y).
  repeat case_decide; try reflexivity. lia.
Qed.

Lemma sort_stable (v : Z) (l : list A) :
  filter (fun a => key a = v) (sort cmp l) = filter (fun a => key a = v) l.
Proof.
  induction l as [|x l IH]; simpl; [reflexivity|].
  rewrite sort_insert_stable, !filter_cons, IH. reflexivity.
Qed.

(** An ascending list is fixed by its classes of equal key: two
    ascending lists with the same elements of every key, in the same
    order, are equal.  So [sort] is the only stable ascending
    arrangement. *)
Lemma stable_sorted_unique (l1 l2 : list A) :
  StronglySorted le l1 -> StronglySorted le l2 ->
  (forall v, filter (fun a => key a = v) l1 = filter (fun a => key a = v) l2) ->
  l1 = l2.
Proof.
  intros H1. revert l2. induction H1 as [|x l1 Hs1 IH Hx]; intros l2 H2 Hf.
  - destruct l2 as [|y l2]; [reflexivity|].
    specialize (Hf (key y)). rewrite filter_cons_True in Hf by reflexivity.
    discriminate.
  - destruct H2 as [|y l2 Hs2 Hy].
    { specialize (Hf (key x)). rewrite filter_cons_True in Hf by reflexivity.
      discriminate. }
    assert (Hk : key x = key y).
    { destruct (Z.lt_trichotomy (key x) (key y)) as [Hlt | [Heq | Hgt]];
        [exfalso | exact Heq | exfalso].
      - pose proof (Hf (key x)) as Hfx.
        rewrite filter_cons_True in Hfx by reflexivity.
        rewrite filter_cons_False in Hfx by lia.
        assert (Hin : x ∈ filter (fun a => key a = key x) l2)
          by (rewrite <- Hfx; apply list_elem_of_here).
        apply list_elem_of_filter in Hin as [_ Hin].
        rewrite Forall_forall in Hy. specialize (Hy x Hin). unfold le in Hy. lia.
      - pose proof (Hf (key y)) as Hfy.
        rewrite (filter_cons_True _ y) in Hfy by reflexivity.
        rewrite filter_cons_False in Hfy by lia.
        assert (Hin : y ∈ filter (fun a => key a = key y) l1)
          by (rewrite Hfy; apply list_elem_of_here).
        apply list_elem_of_filter in Hin as [_ Hin].
        rewrite Forall_forall in Hx. specialize (Hx y Hin). unfold le in Hx. lia. }
    pose proof (Hf (key x)) as Hfx.
    rewrite filter_cons_True in Hfx by reflexivity.
    rewrite filter_cons_True in Hfx by (now rewrite Hk).
    injection Hfx as -> _. f_equal. apply IH; [exact Hs2|].
    intros v. specialize (Hf v). rewrite !filter_cons in Hf.
    case_decide; [now injection Hf | exact Hf].
Qed.

Lemma sorted_take_le_drop (n : nat) (l : list A) :
  StronglySorted le l ->
  forall a b, a ∈ take n l -> b ∈ drop n l -> key a <= key b.
Proof.
  intros Hs. revert n. induction Hs as [|x l Hs IH Hx]; intros n a b Ha Hb.
  - rewrite take_nil in Ha. now apply elem_of_nil in Ha.
  - destruct n as [|n]; simpl in *; [now apply elem_of_nil in Ha|].
    apply elem_of_cons in Ha as [-> | Ha].
    + rewrite Forall_forall in Hx. apply Hx.
      rewrite <- (take_drop n l). apply elem_of_app. now right.
    + now apply (IH n).
Qed.

End SortFacts.

Lemma generateInsights_highlights (cats : list Category) (scs : gmap string Z) :
  highlights (generateInsights cats scs)
  = map (fun c => highlight_text (cat_label c) (score_of scs c)) (lowest_of cats scs).
Proof.
  unfold generateInsights, lowest_of, lowestSorted_of.
  destruct (active_of cats scs); reflexivity.
Qed.

Lemma active_of_spec (cats : list Category) (scs : gmap string Z) (c : Category) :
  c ∈ active_of cats scs <-> c ∈ cats /\ is_Some (scs !! cat_label c).
Proof.
  unfold active_of, has_score. rewrite list_elem_of_filter, bool_decide_eq_true. tauto.
Qed.

(** Without a scored category the engine gives the placeholder and no
    highlights or actions. *)
Lemma generateInsights_cold_start (cats : list Category) (scs : gmap string Z) :
  active_of cats scs = [] ->
  generateInsights cats scs = mkInsights (Some placeholder_summary) [] [].
Proof. intros H. unfold generateInsights. now rewrite H. Qed.

(** C1: the engine ranks the categories that have a score ascending by
    score, categories of equal score staying in registry order, and the
    priority set is the first three of the ranking (all of it when
    there are fewer): the ranking is a rearrangement of the scored
    categories, ascending, and for every score the categories of that
    score come in the ranking as they come in the registry (which
    fixes the ranking); no category outside the priority set has a
    lower score than one inside; highlights and actions follow the
    priority order.  With the scores A:5, B:5, C:3, D:5 in the registry
    order A, B, C, D the priority order is C, A, B. *)
Theorem C1_priority_ranking (cats : list Category) (scs : gmap string Z) :
  let score := score_of scs in
  let active := active_of cats scs in
  let ranked := lowestSorted_of cats scs in
  let lowest := lowest_of cats scs in
  active = filter (fun c => is_Some (scs !! cat_label c)) cats
  /\ Permutation ranked active
  /\ StronglySorted (fun a b => score a <= score b) ranked
  /\ (forall v, filter (fun c => score c = v) ranked
                = filter (fun c => score c = v) active)
  /\ (forall l,
        StronglySorted (fun a b => score a <= score b) l ->
        (forall v, filter (fun c => score c = v) l
                   = filter (fun c => score c = v) active) ->
        l = ranked)
  /\ lowest = take 3 ranked
  /\ length lowest = Nat.min 3 (length active)
  /\ (forall a b, a ∈ lowest -> b ∈ drop 3 ranked -> score a <= score b)
  /\ highlights (generateInsights cats scs)
     = map (fun c => highlight_text (cat_label c) (score c)) lowest
  /\ actions (generateInsights cats scs)
     = map (fun c => suggestForCategory (cat_id c) (cat_label c)) lowest
  /\ map cat_label (lowest_of example_categories example_scores) = ["C"; "A"; "B"].
Proof.
  cbv zeta. unfold lowest_of, lowestSorted_of, by_score.
  split.
  { unfold active_of. apply list_filter_iff. intros c.
    unfold has_score. now rewrite bool_decide_eq_true. }
  split; [apply (sort_Permutation (score_of scs))|].
  split; [apply (sort_StronglySorted (score_of scs))|].
  split; [intros v; apply (sort_stable (score_of scs))|].
  split.
  { intros l Hs Hf. apply (stable_sorted_unique (score_of scs)); [exact Hs| |].
    - apply (sort_StronglySorted (score_of scs)).
    - intros v. now rewrite Hf, (sort_stable (score_of scs)). }
  split; [reflexivity|].
  split.
  { rewrite length_take. f_equal.
    apply Permutation_length, (sort_Permutation (score_of scs)). }
  split.
  { apply (sorted_take_le_drop (score_of scs)).
    apply (sort_StronglySorted (score_of scs)). }
  split; [apply generateInsights_highlights|].
  split; [apply generateInsights_actions|].
  vm_compute. reflexivity.
Qed.

(** ** The summary sentence and the average *)

Section Binary64.

Local Abbreviation prec := JsNumber.prec.
Local Abbreviation emax := JsNumber.emax.

Lemma digits2_pos_bounds (p : positive) :
  2 ^ (Z.pos (digits2_pos p) - 1) <= Z.pos p < 2 ^ Z.pos (digits2_pos p).
Proof.
  induction p as [p IH|p IH|]; simpl digits2_pos.
  - rewrite Pos2Z.inj_succ. change (Z.pos p~1) with (2 * Z.pos p + 1).
    replace (Z.succ (Z.pos (digits2_pos p)) - 1) with (Z.succ (Z.pos (digits2_pos p) - 1)) by lia.
    rewrite !Z.pow_succ_r by lia.
    destruct IH as [IH1 IH2]. revert IH1 IH2.
    generalize (2 ^ (Z.pos (digits2_pos p) - 1)) (2 ^ Z.pos (digits2_pos p)).
    intros; lia.
  - rewrite Pos2Z.inj_succ. change (Z.pos p~0) with (2 * Z.pos p).
    replace (Z.succ (Z.pos (digits2_pos p)) - 1) with (Z.succ (Z.pos (digits2_pos p) - 1)) by lia.
    rewrite !Z.pow_succ_r by lia.
    destruct IH as [IH1 IH2]. revert IH1 IH2.
    generalize (2 ^ (Z.pos (digits2_pos p) - 1)) (2 ^ Z.pos (digits2_pos p)).
    intros; lia.
  - simpl. lia.
Qed.

(** A number between 2^(k-1) and 2^k has k binary digits. *)
Lemma digits2_pos_eq (p : positive) (k : Z) :
  2 ^ (k - 1) <= Z.pos p < 2 ^ k -> Z.pos (digits2_pos p) = k.
Proof.
  intros [Hlo Hhi]. pose proof (digits2_pos_bounds p) as [Dlo Dhi].
  set (d := Z.pos (digits2_pos p)) in *.
  assert (0 < d) by (unfold d; lia).
  destruct (Z.lt_trichotomy d k) as [Hlt | [Heq | Hgt]]; [exfalso | exact Heq | exfalso].
  - assert (2 ^ d <= 2 ^ (k - 1)) by (apply Z.pow_le_mono_r; lia). lia.
  - assert (0 <= k).
    { destruct (Z.le_gt_cases 0 k); [assumption|].
      rewrite (Z.pow_neg_r 2 k) in Hhi by lia. lia. }
    assert (2 ^ k <= 2 ^ (d - 1)) by (apply Z.pow_le_mono_r; lia). lia.
Qed.

Lemma iter_xO (p d : positive) : Z.pos (Pos.iter xO p d) = Z.pos p * 2 ^ Z.pos d.
Proof.
  revert p. induction d as [|d IH] using Pos.peano_ind; intros p.
  - simpl. lia.
  - rewrite Pos.iter_succ. change (Z.pos (Pos.iter xO p d)~0) with (2 * Z.pos (Pos.iter xO p d)).
    rewrite IH, Pos2Z.inj_succ, Z.pow_succ_r by lia. lia.
Qed.

Lemma rne_bounds (m : Z) (l : location) :
  m <= round_nearest_even m l <= m + 1.
Proof.
  destruct l as [|[| |]]; simpl; try lia. destruct (Z.even m); lia.
Qed.

Lemma fexp_normal (x : Z) : -1021 <= x -> fexp prec emax x = x - 53.
Proof. intros H. unfold fexp, emin, JsNumber.prec, JsNumber.emax. lia. Qed.

(** The last step of rounding: a mantissa of 53 digits stays, 2^53
    becomes 2^52 with the next exponent. *)
Lemma shr_fexp_normalized (M e : Z) :
  2 ^ 52 <= M <= 2 ^ 53 -> -1074 <= e ->
  exists m e2, shr_fexp prec emax M e loc_Exact
               = ({| shr_m := Z.pos m; shr_r := false; shr_s := false |}, e2)
    /\ e <= e2 <= e + 1 /\ Z.pos m * 2 ^ (e2 - e) = M /\ 2 ^ 52 <= Z.pos m < 2 ^ 53.
Proof.
  intros [Hlo Hhi] He.
  destruct M as [|p|p]; try (exfalso; change (2^52) with 4503599627370496 in Hlo; lia).
  destruct (Z.eq_dec (Z.pos p) (2 ^ 53)) as [E | E].
  - exists (2 ^ 52)%positive, (e + 1).
    unfold shr_fexp. simpl Zdigits2.
    rewrite (digits2_pos_eq p 54) by (rewrite E; simpl; lia).
    rewrite fexp_normal by lia.
    replace (54 + e - 53 - e) with 1 by lia.
    change (2 ^ 53) with (Z.pos (2 ^ 53)) in E. injection E as ->.
    simpl. split; [reflexivity|]. split; [lia|].
    replace (e + 1 - e) with 1 by lia. split; [reflexivity|]. lia.
  - exists p, e.
    unfold shr_fexp. simpl Zdigits2.
    rewrite (digits2_pos_eq p 53) by (simpl; lia).
    rewrite fexp_normal by lia.
    replace (53 + e - 53 - e) with 0 by lia.
    simpl. split; [reflexivity|]. split; [lia|].
    rewrite Z.sub_diag. simpl. split; [lia|]. lia.
Qed.

Lemma shr_record_of_loc_m (m : Z) (l : location) : shr_m (shr_record_of_loc m l) = m.
Proof. now destruct l as [|[| |]]. Qed.

Lemma shr_1_m (p : positive) (l : location) :
  2 <= Z.pos p ->
  exists p', shr_m (shr_1 (shr_record_of_loc (Z.pos p) l)) = Z.pos p'
             /\ 2 * Z.pos p' <= Z.pos p <= 2 * Z.pos p' + 1.
Proof.
  intros Hp. destruct p as [p'|p'|]; [exists p' | exists p' | lia];
    (split; [now destruct l as [|[| |]] | lia]).
Qed.

(** Rounding a mantissa of 53 or 54 digits: the result is finite and
    differs from the mantissa by less than 3 units of the given
    exponent. *)
Lemma binary_round_aux_bound (mx ex : Z) (lx : location) :
  2 ^ 52 <= mx < 2 ^ 54 -> -1074 <= ex <= 900 ->
  exists m e, binary_round_aux prec emax false mx ex lx = S754_finite false m e
    /\ ex <= e <= ex + 2
    /\ mx - 1 <= Z.pos m * 2 ^ (e - ex) <= mx + 2.
Proof.
  intros [Hlo Hhi] He.
  destruct mx as [|p|p]; try (exfalso; change (2^52) with 4503599627370496 in Hlo; lia).
  unfold binary_round_aux.
  destruct (Z_lt_le_dec (Z.pos p) (2 ^ 53)) as [H53 | H53].
  - assert (Hs : shr_fexp prec emax (Z.pos p) ex lx
                 = (shr_record_of_loc (Z.pos p) lx, ex)).
    { unfold shr_fexp. simpl Zdigits2.
      rewrite (digits2_pos_eq p 53) by (simpl; lia).
      rewrite fexp_normal by lia.
      now replace (53 + ex - 53 - ex) with 0 by lia. }
    rewrite Hs, shr_record_of_loc_m.
    pose proof (rne_bounds (Z.pos p) (loc_of_shr_record (shr_record_of_loc (Z.pos p) lx))) as HM.
    set (M := round_nearest_even _ _) in *.
    destruct (shr_fexp_normalized M ex) as (m & e2 & Hn & He2 & Hv & Hm); [lia | lia |].
    rewrite Hn. simpl shr_m. cbv iota.
    exists m, e2. unfold JsNumber.emax, JsNumber.prec.
    rewrite (proj2 (Z.leb_le e2 (1024 - 53))) by lia.
    split; [reflexivity|]. split; [lia|]. lia.
  - destruct (shr_1_m p lx) as (p' & Hp' & Hpp); [change (2^53) with 9007199254740992 in H53; lia|].
    assert (Hs : shr_fexp prec emax (Z.pos p) ex lx
                 = (shr_1 (shr_record_of_loc (Z.pos p) lx), ex + 1)).
    { unfold shr_fexp. simpl Zdigits2.
      rewrite (digits2_pos_eq p 54) by (simpl; lia).
      rewrite fexp_normal by lia.
      now replace (54 + ex - 53 - ex) with 1 by lia. }
    rewrite Hs, Hp'.
    pose proof (rne_bounds (Z.pos p')
                  (loc_of_shr_record (shr_1 (shr_record_of_loc (Z.pos p) lx)))) as HM.
    set (M := round_nearest_even _ _) in *.
    change (2 ^ 53) with 9007199254740992 in *.
    change (2 ^ 54) with 18014398509481984 in *.
    change (2 ^ 52) with 4503599627370496 in *.
    destruct (shr_fexp_normalized M (ex + 1)) as (m & e2 & Hn & He2 & Hv & Hm);
      [change (2 ^ 53) with 9007199254740992; change (2 ^ 52) with 4503599627370496; lia | lia |].
    rewrite Hn. simpl shr_m. cbv iota.
    exists m, e2. unfold JsNumber.emax, JsNumber.prec.
    rewrite (proj2 (Z.leb_le e2 (1024 - 53))) by lia.
    split; [reflexivity|]. split; [lia|].
    replace (e2 - ex) with (Z.succ (e2 - (ex + 1))) by lia.
    rewrite Z.pow_succ_r by lia.
    revert Hv. generalize (2 ^ (e2 - (ex + 1))). intros z Hv. lia.
Qed.

(** The binary64 value of a positive integer below 2^53: a mantissa of
    53 digits and the exponent that makes it the integer. *)
Lemma of_Z_pos (z : Z) :
  0 < z < 2 ^ 53 ->
  exists m e, JsNumber.of_Z z = S754_finite false m e
    /\ 2 ^ 52 <= Z.pos m < 2 ^ 53
    /\ -52 <= e <= 0
    /\ Z.pos m = z * 2 ^ (- e)
    /\ 2 ^ (52 + e) <= z < 2 ^ (53 + e).
Proof.
  intros [Hz Hhi]. destruct z as [|p|p]; try lia.
  unfold JsNumber.of_Z, binary_normalize, binary_round.
  pose proof (digits2_pos_bounds p) as [Dlo Dhi].
  set (d := Z.pos (digits2_pos p)) in *.
  assert (Hd : 1 <= d <= 53).
  { split; [unfold d; lia|].
    destruct (Z_le_gt_dec d 53); [assumption|exfalso].
    assert (2 ^ 53 <= 2 ^ (d - 1)) by (apply Z.pow_le_mono_r; lia). lia. }
  rewrite Z.add_0_r, fexp_normal by lia.
  assert (Hal : exists mz, shl_align p 0 (d - 53) = (mz, d - 53)
                           /\ Z.pos mz = Z.pos p * 2 ^ (53 - d)).
  { unfold shl_align. rewrite Z.sub_0_r.
    destruct (d - 53) as [|q|q] eqn:E; try lia.
    - exists p. split; [reflexivity|]. replace (53 - d) with 0 by lia. simpl. lia.
    - exists (Pos.iter xO p q). split; [reflexivity|].
      rewrite iter_xO. f_equal. f_equal. lia. }
  destruct Hal as (mz & -> & Hmz).
  assert (Hb : 2 ^ 52 <= Z.pos mz < 2 ^ 53).
  { assert (E52 : 2 ^ 52 = 2 ^ (d - 1) * 2 ^ (53 - d))
      by (rewrite <- Z.pow_add_r by lia; f_equal; lia).
    assert (E53 : 2 ^ 53 = 2 ^ d * 2 ^ (53 - d))
      by (rewrite <- Z.pow_add_r by lia; f_equal; lia).
    rewrite Hmz, E52, E53.
    assert (0 < 2 ^ (53 - d)) by (apply Z.pow_pos_nonneg; lia).
    split; [apply Z.mul_le_mono_nonneg_r; lia | apply Z.mul_lt_mono_pos_r; lia]. }
  unfold binary_round_aux.
  assert (Hs : forall M, 2 ^ 52 <= M < 2 ^ 53 ->
             shr_fexp prec emax M (d - 53) loc_Exact
             = ({| shr_m := M; shr_r := false; shr_s := false |}, d - 53)).
  { intros M HM. destruct M as [|pm|pm]; try (exfalso; change (2^52) with 4503599627370496 in HM; lia).
    unfold shr_fexp. simpl Zdigits2.
    rewrite (digits2_pos_eq pm 53) by (simpl; lia).
    rewrite fexp_normal by lia.
    now replace (53 + (d - 53) - 53 - (d - 53)) with 0 by lia. }
  rewrite (Hs _ Hb). simpl. rewrite (Hs _ Hb). simpl.
  unfold JsNumber.emax, JsNumber.prec.
  rewrite (proj2 (Z.leb_le (d - 53) (1024 - 53))) by lia.
  exists mz, (d - 53). split; [reflexivity|]. split; [exact Hb|].
  split; [lia|]. split.
  - rewrite Hmz. f_equal. f_equal. lia.
  - replace (52 + (d - 53)) with (d - 1) by lia.
    replace (53 + (d - 53)) with d by lia. lia.
Qed.

(** The quotient of two positive integers: with [P] the power of two
    that scales it to a mantissa, the result is within 2 units of
    [s * P / n] on that scale. *)
Lemma div_of_Z (s n : Z) :
  0 < s < 2 ^ 53 -> 0 < n < 2 ^ 53 ->
  exists m e e1 e2 k,
    JsNumber.div (JsNumber.of_Z s) (JsNumber.of_Z n) = S754_finite false m e
    /\ 2 ^ (52 + e1) <= s < 2 ^ (53 + e1) /\ -52 <= e1 <= 0
    /\ 2 ^ (52 + e2) <= n < 2 ^ (53 + e2) /\ -52 <= e2 <= 0
    /\ 0 <= k <= 2 /\ e = e1 - e2 - 53 + k
    /\ (s * 2 ^ (53 + e2 - e1)) / n - 1 <= Z.pos m * 2 ^ k
       <= (s * 2 ^ (53 + e2 - e1)) / n + 2
    /\ Z.pos m * 2 ^ k < 2 ^ 55.
Proof.
  intros Hs Hn.
  destruct (of_Z_pos s Hs) as (m1 & e1 & -> & Hm1 & He1 & Hv1 & Hb1).
  destruct (of_Z_pos n Hn) as (m2 & e2 & -> & Hm2 & He2 & Hv2 & Hb2).
  unfold JsNumber.div, SFdiv, SFdiv_core_binary. simpl Zdigits2.
  rewrite (digits2_pos_eq m1 53), (digits2_pos_eq m2 53) by (simpl; lia).
  rewrite fexp_normal by lia.
  replace (Z.min (53 + e1 - (53 + e2) - 53) (e1 - e2)) with (e1 - e2 - 53) by lia.
  replace (e1 - e2 - (e1 - e2 - 53)) with 53 by lia.
  rewrite Z.shiftl_mul_pow2 by lia.
  pose proof (Z.div_eucl_eq (Z.pos m1 * 2 ^ 53) (Z.pos m2) ltac:(lia)) as Hde.
  pose proof (Z.mod_pos_bound (Z.pos m1 * 2 ^ 53) (Z.pos m2) ltac:(lia)) as Hmod.
  unfold Z.modulo in Hmod.
  destruct (Z.div_eucl (Z.pos m1 * 2 ^ 53) (Z.pos m2)) as [q r] eqn:E.
  assert (Hq : q = (Z.pos m1 * 2 ^ 53) / Z.pos m2) by (unfold Z.div; now rewrite E).
  assert (Hqb : 2 ^ 52 <= q < 2 ^ 54).
  { change (2 ^ 52) with 4503599627370496 in *. change (2 ^ 53) with 9007199254740992 in *.
    change (2 ^ 54) with 18014398509481984. nia. }
  destruct (binary_round_aux_bound q (e1 - e2 - 53) (new_location (Z.pos m2) r) Hqb)
    as (m & e & Hr & He & Hv); [lia|].
  simpl xorb. rewrite Hr.
  exists m, e, e1, e2, (e - (e1 - e2 - 53)).
  split; [reflexivity|]. split; [exact Hb1|]. split; [exact He1|].
  split; [exact Hb2|]. split; [exact He2|]. split; [lia|]. split; [lia|].
  assert (Hq' : q = (s * 2 ^ (53 + e2 - e1)) / n).
  { rewrite Hq, Hv1, Hv2.
    replace (s * 2 ^ (- e1) * 2 ^ 53) with (s * 2 ^ (53 + e2 - e1) * 2 ^ (- e2)).
    - apply Z.div_mul_cancel_r; [lia|]. apply Z.pow_nonzero; lia.
    - rewrite <- !Z.mul_assoc, <- !Z.pow_add_r by lia. f_equal. f_equal. lia. }
  rewrite <- Hq'. split; [exact Hv|].
  change (2 ^ 54) with 18014398509481984 in Hqb. change (2 ^ 55) with 36028797018963968. lia.
Qed.

(** A tenth count computed from a value close to the exact quotient is
    a nearest one for the exact quotient. *)
Lemma tenths_nearest (s n P V d : Z) :
  0 <= s -> 0 < n -> 40 * n < P ->
  (s * P) / n - 1 <= V <= (s * P) / n + 2 ->
  d = (20 * V + P) / (2 * P) ->
  2 * Z.abs (10 * s - d * n) <= n.
Proof.
  intros Hs Hn HP HV ->.
  pose proof (Z.mul_div_le (s * P) n Hn) as Q1.
  pose proof (Z.mul_succ_div_gt (s * P) n Hn) as Q2.
  pose proof (Z.mul_div_le (20 * V + P) (2 * P) ltac:(lia)) as D1.
  pose proof (Z.mul_succ_div_gt (20 * V + P) (2 * P) ltac:(lia)) as D2.
  set (q := (s * P) / n) in *. set (d := (20 * V + P) / (2 * P)) in *.
  assert (U : P * (2 * d * n - 20 * s - n) <= 40 * n) by nia.
  assert (L : - (40 * n) <= P * (2 * d * n - 20 * s + n)) by nia.
  assert (2 * d * n - 20 * s - n <= 0) by nia.
  assert (0 <= 2 * d * n - 20 * s + n) by nia.
  lia.
Qed.

End Binary64.

(** The average of [n] integer scores between 0 and 10 that sum to [s],
    as [toFixed(1)] prints it: the digits of a count of tenths that is
    nearest to the exact mean. *)
Lemma toFixed1_mean (s n : Z) :
  0 < n < 2 ^ 32 -> 0 <= s <= 10 * n ->
  exists d, JsNumber.toFixed1 (JsNumber.div (JsNumber.of_Z s) (JsNumber.of_Z n))
            = Some (JsNumber.render_tenths d)
    /\ 2 * Z.abs (10 * s - d * n) <= n.
Proof.
  intros Hn Hs.
  change (2 ^ 32) with 4294967296 in Hn.
  destruct (Z.eq_dec s 0) as [-> | Hs0].
  - exists 0. split; [|lia].
    destruct (of_Z_pos n) as (m2 & e2 & -> & _);
      [change (2 ^ 53) with 9007199254740992; lia|].
    reflexivity.
  - destruct (div_of_Z s n) as (m & e & e1 & e2 & k & -> & Hb1 & He1 & Hb2 & He2 & Hk & -> & HV & HV55);
      [change (2 ^ 53) with 9007199254740992; lia
      |change (2 ^ 53) with 9007199254740992; lia|].
    assert (He1' : e1 <= -17).
    { destruct (Z_le_gt_dec e1 (-17)); [assumption|exfalso].
      assert (2 ^ 36 <= 2 ^ (52 + e1)) by (apply Z.pow_le_mono_r; lia).
      change (2 ^ 36) with 68719476736 in *. lia. }
    set (P := 2 ^ (53 + e2 - e1)) in *.
    assert (HK : 0 < 2 ^ k) by (apply Z.pow_pos_nonneg; lia).
    assert (HPe : 2 ^ (- (e1 - e2 - 53 + k)) * 2 ^ k = P).
    { unfold P. rewrite <- Z.pow_add_r by lia. f_equal. lia. }
    assert (HP : 40 * n < P).
    { unfold P. replace (53 + e2 - e1) with ((53 + e2) + (-17 - e1) + 17) by lia.
      rewrite !Z.pow_add_r by lia.
      assert (1 <= 2 ^ (-17 - e1)) by (apply (Z.pow_le_mono_r 2 0); lia).
      change (2 ^ 17) with 131072. nia. }
    exists ((20 * (Z.pos m * 2 ^ k) + P) / (2 * P)). split.
    + unfold JsNumber.toFixed1, JsNumber.ge_1e21, JsNumber.nearest_tenths.
      rewrite (proj2 (Z.leb_gt 0 (e1 - e2 - 53 + k))) by lia.
      assert (HE : 1 <= 2 ^ (- (e1 - e2 - 53 + k))) by (apply (Z.pow_le_mono_r 2 0); lia).
      rewrite (proj2 (Z.leb_gt (10 ^ 21 * 2 ^ (- (e1 - e2 - 53 + k))) (Z.pos m))).
      2:{ change (10 ^ 21) with 1000000000000000000000.
          change (2 ^ 55) with 36028797018963968 in HV55. nia. }
      simpl append. do 2 f_equal.
      replace (20 * (Z.pos m * 2 ^ k) + P)
        with ((20 * Z.pos m + 2 ^ (- (e1 - e2 - 53 + k))) * 2 ^ k)
        by (rewrite Z.mul_add_distr_r, HPe; ring).
      replace (2 * P) with (2 * 2 ^ (- (e1 - e2 - 53 + k)) * 2 ^ k)
        by (rewrite <- HPe; ring).
      rewrite Z.div_mul_cancel_r by lia. reflexivity.
    + apply (tenths_nearest s n P (Z.pos m * 2 ^ k)); lia.
Qed.

Lemma foldl_add_bounds (l : list Z) (acc : Z) :
  Forall (fun v => 0 <= v <= 10) l ->
  acc <= foldl Z.add acc l <= acc + 10 * Z.of_nat (length l).
Proof.
  intros H. revert acc. induction H as [|v l Hv _ IH]; intros acc; simpl; [lia|].
  specialize (IH (acc + v)). lia.
Qed.

Lemma render_tenths_digits (d : Z) :
  0 <= d <= 100 ->
  JsNumber.render_tenths d = pretty (d / 10) +:+ "." +:+ pretty (d mod 10).
Proof.
  intros Hd.
  assert (H : Forall (fun k => JsNumber.render_tenths (Z.of_nat k)
                               = pretty (Z.of_nat k / 10) +:+ "." +:+ pretty (Z.of_nat k mod 10))
                (seq 0 101)).
  { apply (bool_decide_unpack _). vm_compute. exact I. }
  rewrite Forall_forall in H. specialize (H (Z.to_nat d)).
  rewrite Z2Nat.id in H by lia. apply H.
  apply elem_of_seq. lia.
Qed.

Lemma foldl_add_foldr (l : list Z) (acc : Z) :
  foldl Z.add acc l = acc + foldr Z.add 0 l.
Proof.
  revert acc. induction l as [|v l IH]; intros acc; simpl; [lia|].
  rewrite IH. lia.
Qed.

Lemma foldr_add_Permutation (l1 l2 : list Z) :
  Permutation l1 l2 -> foldr Z.add 0 l1 = foldr Z.add 0 l2.
Proof. induction 1; simpl; lia. Qed.

Lemma NoDup_map_filter {A B} (f : A -> B) (P : A -> Prop) `{forall x, Decision (P x)}
    (l : list A) :
  NoDup (map f l) -> NoDup (map f (filter P l)).
Proof.
  induction l as [|x l IH]; intros Hnd; [constructor|].
  change (map f (x :: l)) with (f x :: map f l) in Hnd.
  apply NoDup_cons in Hnd as [Hx Hnd]. rewrite filter_cons.
  destruct (decide (P x)); [|now apply IH].
  change (map f (x :: filter P l)) with (f x :: map f (filter P l)).
  apply NoDup_cons. split; [|now apply IH].
  intros Hin. apply Hx. apply list_elem_of_fmap in Hin as (y & Hy & Hin).
  apply list_elem_of_filter in Hin as [_ Hin].
  apply list_elem_of_fmap. now exists y.
Qed.

(** When the labels of the registry are pairwise distinct and every
    entry of the score mapping belongs to a category, the rated
    categories with their scores are the entries of the mapping. *)
Lemma active_entries (cats : list Category) (scs : gmap string Z) :
  NoDup (map cat_label cats) ->
  (forall k, is_Some (scs !! k) -> k ∈ map cat_label cats) ->
  Permutation (map (fun c => (cat_label c, score_of scs c)) (active_of cats scs))
              (map_to_list scs).
Proof.
  intros Hnd Hdom.
  set (L := map (fun c => (cat_label c, score_of scs c)) (active_of cats scs)).
  assert (HL1 : L.*1 = map cat_label (active_of cats scs)).
  { unfold L. change (map ?f ?l) with (f <$> l). rewrite <- list_fmap_compose.
    reflexivity. }
  assert (HndL : NoDup (L.*1)).
  { rewrite HL1. unfold active_of. now apply NoDup_map_filter. }
  assert (Hscs : list_to_map L = scs).
  { apply map_eq. intros k. destruct (scs !! k) as [v|] eqn:Ek.
    - apply elem_of_list_to_map_1; [exact HndL|].
      pose proof (Hdom k (mk_is_Some _ _ Ek)) as Hk.
      apply list_elem_of_fmap in Hk as (c & -> & Hc).
      unfold L. apply list_elem_of_fmap. exists c. split.
      + unfold score_of. now rewrite Ek.
      + unfold active_of, has_score. apply list_elem_of_filter. split; [|exact Hc].
        apply bool_decide_eq_true. eauto.
    - apply not_elem_of_list_to_map_1. rewrite HL1. intros Hin.
      apply list_elem_of_fmap in Hin as (c & -> & Hc).
      unfold active_of, has_score in Hc. apply list_elem_of_filter in Hc as [Hc _].
      apply bool_decide_eq_true in Hc. rewrite Ek in Hc. now destruct Hc. }
  rewrite <- Hscs. symmetry. now apply map_to_list_to_map.
Qed.

(** C5: when some category has a score, every score lies between 0 and
    10 and the registry is shorter than 2^32 (the bound of an array),
    the summary is the sentence with the average printed with one
    decimal and the number of rated categories.  The printed average
    is a tenth that is nearest to the exact mean of the scores: with
    [d] tenths printed, [d / 10] differs from the sum divided by the
    count by at most one twentieth, and a tenth that is closer than one
    twentieth is the one printed.  When the labels of the registry
    are pairwise distinct and every entry of the mapping belongs to a
    category, the sum is the sum of all entries of the mapping and the
    count is their number.  With the scores A:2, B:4, C:6 the sentence
    reads 4.0 across 3 areas. *)
Theorem C5_summary_mean (cats : list Category) (scs : gmap string Z) :
  let active := active_of cats scs in
  let total := foldl Z.add 0 (map (score_of scs) active) in
  let count := length active in
  ((exists c, c ∈ cats /\ is_Some (scs !! cat_label c)) ->
   (forall c, c ∈ active -> 0 <= score_of scs c <= 10) ->
   Z.of_nat (length cats) < 2 ^ 32 ->
   exists d : Z,
     summary (generateInsights cats scs)
     = Some ("Your average score is "
             +:+ (pretty (d / 10) +:+ "." +:+ pretty (d mod 10))
             +:+ "/10 across " +:+ pretty count
             +:+ " areas. A balanced wheel is less about perfection and more about feeling steady overall.")
     /\ 0 <= d <= 100
     /\ 2 * Z.abs (10 * total - d * Z.of_nat count) <= Z.of_nat count
     /\ (forall d', 2 * Z.abs (10 * total - d' * Z.of_nat count) < Z.of_nat count ->
         d' = d))
  /\ (NoDup (map cat_label cats) ->
      (forall k, is_Some (scs !! k) -> k ∈ map cat_label cats) ->
      count = size scs /\ total = scores_total scs)
  /\ summary (generateInsights
                [mkCategory "a" "A" ""; mkCategory "b" "B" ""; mkCategory "c" "C" ""]
                (<["A" := 2]> (<["B" := 4]> (<["C" := 6]> ∅))))
     = Some "Your average score is 4.0/10 across 3 areas. A balanced wheel is less about perfection and more about feeling steady overall.".
Proof.
  cbv zeta. split; [|split; [|vm_compute; reflexivity]].
  - intros (c & Hc & Hsc) Hrange Hlen.
    assert (Hact : c ∈ active_of cats scs).
    { unfold active_of, has_score. apply list_elem_of_filter.
      split; [now apply bool_decide_eq_true | exact Hc]. }
    unfold generateInsights.
    destruct (active_of cats scs) as [|a0 active] eqn:E; [now apply elem_of_nil in Hact|].
    rewrite <- E in *.
    assert (Hn : (0 < length (active_of cats scs) <= length cats)%nat).
    { split; [rewrite E; simpl; lia|]. unfold active_of. apply length_filter. }
    destruct (length (active_of cats scs)) as [|n'] eqn:El; [lia|]. rewrite <- El in *.
    unfold average_of. rewrite length_map, El. rewrite <- El.
    set (total := foldl Z.add 0 (map (score_of scs) (active_of cats scs))).
    assert (Ht : 0 <= total <= 10 * Z.of_nat (length (active_of cats scs))).
    { pose proof (foldl_add_bounds (map (score_of scs) (active_of cats scs)) 0) as Hb.
      rewrite length_map in Hb. unfold total. apply Hb.
      apply Forall_map, Forall_forall. intros x Hx. apply Hrange. exact Hx. }
    destruct (toFixed1_mean total (Z.of_nat (length (active_of cats scs))))
      as (d & Hd & Hnear); [lia | exact Ht |].
    assert (Hd100 : 0 <= d <= 100) by nia.
    exists d. simpl summary. rewrite Hd, (render_tenths_digits d Hd100).
    split; [reflexivity|]. split; [exact Hd100|]. split; [exact Hnear|].
    intros d' Hd'. nia.
  - intros Hnd Hdom. pose proof (active_entries cats scs Hnd Hdom) as Hp. split.
    + rewrite <- length_map_to_list, <- (Permutation_length Hp). now rewrite length_map.
    + unfold scores_total. rewrite foldl_add_foldr, Z.add_0_l.
      rewrite <- (foldr_add_Permutation _ _ (fmap_Permutation snd _ _ Hp)).
      f_equal. change (map ?f ?l) with (f <$> l). rewrite <- list_fmap_compose.
      reflexivity.
Qed.

(** At a mean that lies exactly halfway between two tenths the double
    decides: 1/4 is a double and prints as 0.3, the double nearest to
    3/20 lies below it and prints as 0.1. *)
Lemma toFixed1_at_halves :
  JsNumber.toFixed1 (average_of [1; 0; 0; 0]) = Some "0.3"
  /\ JsNumber.toFixed1
       (average_of [1; 1; 1; 0; 0; 0; 0; 0; 0; 0; 0; 0; 0; 0; 0; 0; 0; 0; 0; 0])
     = Some "0.1".
Proof. vm_compute. split; reflexivity. Qed.

Lemma C5_witness :
  let scs := <["Finances" := 2]> (<["Relationships" := 10]> initial_scores) in
  let active := active_of DEFAULT_CATEGORIES scs in
  let total := foldl Z.add 0 (map (score_of scs) active) in
  (exists d : Z,
     summary (generateInsights DEFAULT_CATEGORIES scs)
     = Some ("Your average score is "
             +:+ (pretty (d / 10) +:+ "." +:+ pretty (d mod 10))
             +:+ "/10 across " +:+ pretty (length active)
             +:+ " areas. A balanced wheel is less about perfection and more about feeling steady overall.")
     /\ 0 <= d <= 100
     /\ 2 * Z.abs (10 * total - d * Z.of_nat (length active)) <= Z.of_nat (length active)
     /\ (forall d', 2 * Z.abs (10 * total - d' * Z.of_nat (length active))
                    < Z.of_nat (length active) -> d' = d))
  /\ total = 42 /\ length active = 8%nat.
Proof.
  cbv zeta. split; [|split; vm_compute; reflexivity].
  apply (proj1 (C5_summary_mean DEFAULT_CATEGORIES
                  (<["Finances" := 2]> (<["Relationships" := 10]> initial_scores)))).
  - exists (mkCategory "health" "Health & Energy"
              "Physical health, sleep, energy, and overall wellbeing.").
    split; [apply list_elem_of_here | vm_compute; eauto].
  - apply Forall_forall. apply (bool_decide_unpack _). vm_compute. exact I.
  - vm_compute. reflexivity.
Defined.

(** ** Snapshots in the store *)

Section HeapFacts.
Implicit Types (h : Heap.heap) (l : Heap.loc) (st : Heap.state).

(** *** Running the primitives *)

Lemma load_Some h l o : h !! l = Some o -> Heap.load l h = Some (o, h).
Proof. unfold Heap.load. now intros ->. Qed.

Lemma load_record_Some h l m : record_at h l m -> Heap.load_record l h = Some (m, h).
Proof. intros H. unfold Heap.load_record, Heap.bind. now rewrite (load_Some _ _ _ H). Qed.

Lemma load_array_Some h l elems :
  h !! l = Some (Heap.OArray elems) -> Heap.load_array l h = Some (elems, h).
Proof. intros H. unfold Heap.load_array, Heap.bind. now rewrite (load_Some _ _ _ H). Qed.

Lemma load_category_Some h l c : cat_at h l c -> Heap.load_category l h = Some (c, h).
Proof. intros H. unfold Heap.load_category, Heap.bind. now rewrite (load_Some _ _ _ H). Qed.

Lemma load_categories_Some h elems cs :
  Forall2 (cat_at h) elems cs -> Heap.load_categories elems h = Some (cs, h).
Proof.
  induction 1 as [|l c elems cs Hl _ IH]; [reflexivity|].
  simpl. unfold Heap.bind at 1. rewrite (load_category_Some _ _ _ Hl).
  unfold Heap.bind at 1. now rewrite IH.
Qed.

Lemma filter_refs_Some h keep elems cs :
  Forall2 (cat_at h) elems cs ->
  exists kept, Heap.filter_refs keep elems h = Some (kept, h)
               /\ Forall2 (cat_at h) kept (List.filter keep cs).
Proof.
  induction 1 as [|l c elems cs Hl _ (kept & IH & Hk)].
  - exists []. split; [reflexivity | constructor].
  - simpl. unfold Heap.bind at 1. rewrite (load_category_Some _ _ _ Hl).
    unfold Heap.bind at 1. rewrite IH. unfold Heap.ret.
    destruct (keep c); eexists; (split; [reflexivity|]); [now constructor | exact Hk].
Qed.

(** *** Reading back *)

Lemma read_record_Some h l m : record_at h l m -> Heap.read_record h l = Some m.
Proof. intros H. unfold Heap.read_record. now rewrite (load_record_Some _ _ _ H). Qed.

Lemma read_categories_Some h l cs : cats_at h l cs -> Heap.read_categories h l = Some cs.
Proof.
  intros (elems & Hl & Hcs). unfold Heap.read_categories, Heap.bind.
  rewrite (load_array_Some _ _ _ Hl). now rewrite (load_categories_Some _ _ _ Hcs).
Qed.

Lemma read_snapshot_Some h l a : snap_at h l a -> Heap.read_snapshot h l = Some a.
Proof.
  intros (sc & cs & Hl & Hsc & Hcs). unfold Heap.read_snapshot. rewrite Hl.
  rewrite (read_record_Some _ _ _ Hsc), (read_categories_Some _ _ _ Hcs).
  now destruct a.
Qed.

Lemma read_assessments_Some h l snaps :
  snaps_at h l snaps -> Heap.read_assessments h l = Some snaps.
Proof.
  intros (elems & Hl & Hs). unfold Heap.read_assessments. rewrite Hl.
  apply mapM_Some. eapply Forall2_impl; [exact Hs|].
  intros. now apply read_snapshot_Some.
Qed.

Lemma read_state_Some h st s : state_at h st s -> Heap.read_state h st = Some s.
Proof.
  intros (Hc & Hr & Hs & H1 & H2 & H3). unfold Heap.read_state.
  rewrite (read_categories_Some _ _ _ Hc), (read_record_Some _ _ _ Hr),
    (read_assessments_Some _ _ _ Hs), H1, H2, H3.
  now destruct s.
Qed.

(** *** A store that only grows keeps what references stand for *)

Lemma cat_at_mono h h' l c : h `prefix_of` h' -> cat_at h l c -> cat_at h' l c.
Proof. unfold cat_at. intros Hp H. eapply prefix_lookup_Some; eauto. Qed.

Lemma record_at_mono h h' l m : h `prefix_of` h' -> record_at h l m -> record_at h' l m.
Proof. unfold record_at. intros Hp H. eapply prefix_lookup_Some; eauto. Qed.

Lemma cats_at_mono h h' l cs : h `prefix_of` h' -> cats_at h l cs -> cats_at h' l cs.
Proof.
  intros Hp (elems & Hl & Hcs). exists elems. split.
  - eapply prefix_lookup_Some; eauto.
  - eapply Forall2_impl; [exact Hcs|]. intros. now apply (cat_at_mono h).
Qed.

Lemma snap_at_mono h h' l a : h `prefix_of` h' -> snap_at h l a -> snap_at h' l a.
Proof.
  intros Hp (sc & cs & Hl & Hsc & Hcs). exists sc, cs. split; [|split].
  - eapply prefix_lookup_Some; eauto.
  - now apply (record_at_mono h).
  - now apply (cats_at_mono h).
Qed.

Lemma snaps_at_mono h h' l snaps :
  h `prefix_of` h' -> snaps_at h l snaps -> snaps_at h' l snaps.
Proof.
  intros Hp (elems & Hl & Hs). exists elems. split.
  - eapply prefix_lookup_Some; eauto.
  - eapply Forall2_impl; [exact Hs|]. intros. now apply (snap_at_mono h).
Qed.

(** *** From what is read back to what references stand for *)

Lemma load_inv h l o h' : Heap.load l h = Some (o, h') -> h' = h /\ h !! l = Some o.
Proof. unfold Heap.load. destruct (h !! l); intros [= <- <-]; auto. Qed.

Lemma load_record_inv h l m h' :
  Heap.load_record l h = Some (m, h') -> h' = h /\ record_at h l m.
Proof.
  unfold Heap.load_record, Heap.bind. destruct (Heap.load l h) as [[o h0]|] eqn:E; [|discriminate].
  apply load_inv in E as [-> E]. destruct o; try discriminate.
  intros [= <- <-]. auto.
Qed.

Lemma load_array_inv h l elems h' :
  Heap.load_array l h = Some (elems, h') -> h' = h /\ h !! l = Some (Heap.OArray elems).
Proof.
  unfold Heap.load_array, Heap.bind. destruct (Heap.load l h) as [[o h0]|] eqn:E; [|discriminate].
  apply load_inv in E as [-> E]. destruct o; try discriminate.
  intros [= <- <-]. auto.
Qed.

Lemma load_category_inv h l c h' :
  Heap.load_category l h = Some (c, h') -> h' = h /\ cat_at h l c.
Proof.
  unfold Heap.load_category, Heap.bind. destruct (Heap.load l h) as [[o h0]|] eqn:E; [|discriminate].
  apply load_inv in E as [-> E]. destruct o; try discriminate.
  intros [= <- <-]. auto.
Qed.

Lemma load_categories_inv h elems cs h' :
  Heap.load_categories elems h = Some (cs, h') -> h' = h /\ Forall2 (cat_at h) elems cs.
Proof.
  revert cs h'. induction elems as [|l elems IH]; intros cs h'; simpl.
  - intros [= <- <-]. split; [reflexivity | constructor].
  - unfold Heap.bind at 1.
    destruct (Heap.load_category l h) as [[c h0]|] eqn:E; [|discriminate].
    apply load_category_inv in E as [-> E].
    unfold Heap.bind at 1.
    destruct (Heap.load_categories elems h) as [[cs0 h0]|] eqn:E2; [|discriminate].
    destruct (IH _ _ eq_refl) as [-> Hcs].
    intros [= <- <-]. split; [reflexivity | now constructor].
Qed.

Lemma read_record_inv h l m : Heap.read_record h l = Some m -> record_at h l m.
Proof.
  unfold Heap.read_record. destruct (Heap.load_record l h) as [[m0 h0]|] eqn:E; [|discriminate].
  intros [= <-]. now apply load_record_inv in E as [_ E].
Qed.

Lemma read_categories_inv h l cs : Heap.read_categories h l = Some cs -> cats_at h l cs.
Proof.
  unfold Heap.read_categories, Heap.bind.
  destruct (Heap.load_array l h) as [[elems h0]|] eqn:E; [|discriminate].
  apply load_array_inv in E as [-> E].
  destruct (Heap.load_categories elems h) as [[cs0 h0]|] eqn:E2; [|discriminate].
  apply load_categories_inv in E2 as [-> E2]. intros [= <-]. now exists elems.
Qed.

Lemma read_snapshot_inv h l a : Heap.read_snapshot h l = Some a -> snap_at h l a.
Proof.
  unfold Heap.read_snapshot. destruct (h !! l) as [[| | |id name iso sc cs]|] eqn:E; try discriminate.
  destruct (Heap.read_record h sc) eqn:E1; [|discriminate].
  destruct (Heap.read_categories h cs) eqn:E2; [|discriminate].
  intros [= <-]. exists sc, cs. simpl.
  split; [exact E|]. split; [now apply read_record_inv | now apply read_categories_inv].
Qed.

Lemma read_assessments_inv h l snaps :
  Heap.read_assessments h l = Some snaps -> snaps_at h l snaps.
Proof.
  unfold Heap.read_assessments. destruct (h !! l) as [[| |elems|]|] eqn:E; try discriminate.
  intros H. apply mapM_Some in H. exists elems. split; [exact E|].
  eapply Forall2_impl; [exact H|]. intros. now apply read_snapshot_inv.
Qed.

Lemma read_state_inv h st s : Heap.read_state h st = Some s -> state_at h st s.
Proof.
  unfold Heap.read_state.
  destruct (Heap.read_categories _ _) eqn:E1; [|discriminate].
  destruct (Heap.read_record _ _) eqn:E2; [|discriminate].
  destruct (Heap.read_assessments _ _) eqn:E3; [|discriminate].
  intros [= <-]. repeat split; simpl.
  - now apply read_categories_inv.
  - now apply read_record_inv.
  - now apply read_assessments_inv.
Qed.

(** *** The handlers on the store do what the handlers on values do *)

Lemma lookup_alloc h (o : Heap.object) : (h ++ [o]) !! length h = Some o.
Proof. now apply list_lookup_middle. Qed.

Lemma prefix_alloc h (k : list Heap.object) : h `prefix_of` h ++ k.
Proof. now apply prefix_app_r. Qed.

Lemma state_at_mono h h' st s : h `prefix_of` h' -> state_at h st s -> state_at h' st s.
Proof.
  intros Hp (Hc & Hr & Hs & H). split; [|split; [|split]]; [| | |exact H].
  - now apply (cats_at_mono h).
  - now apply (record_at_mono h).
  - now apply (snaps_at_mono h).
Qed.

Lemma handleScoreChange_runs h st s label value :
  state_at h st s ->
  runs_to (Heap.handleScoreChange label value st) h (handleScoreChange label value s).
Proof.
  intros (Hc & Hr & Hs & H1 & H2 & H3).
  unfold runs_to, Heap.handleScoreChange, Heap.bind.
  rewrite (load_record_Some _ _ _ Hr). unfold Heap.alloc, Heap.ret.
  eexists _, _. split; [reflexivity|].
  pose proof (prefix_alloc h [Heap.ORecord (<[label:=value]> (scores s))]) as Hp.
  split; [exact Hp|].
  split; [|split; [|split]]; simpl; [| | |auto].
  - now apply (cats_at_mono h).
  - apply lookup_alloc.
  - now apply (snaps_at_mono h).
Qed.

Lemma handleAddCategory_runs h st s now :
  state_at h st s ->
  runs_to (Heap.handleAddCategory now st) h (handleAddCategory now s).
Proof.
  intros Hst. pose proof Hst as (Hc & Hr & Hs & H1 & H2 & H3).
  unfold runs_to, Heap.handleAddCategory, handleAddCategory.
  rewrite H1, H2.
  destruct (JsString.truthy (JsString.trim (customLabel s))); simpl.
  2:{ exists st, h. split; [reflexivity|]. split; [reflexivity | exact Hst]. }
  destruct Hc as (elems & Hl & Hcs).
  unfold Heap.bind at 1. rewrite (load_array_Some _ _ _ Hl).
  unfold Heap.bind at 1. rewrite (load_categories_Some _ _ _ Hcs).
  destruct (label_exists _ _).
  { exists st, h. split; [reflexivity|]. split; [reflexivity | exact Hst]. }
  set (newCat := newCat_of now _ _).
  set (h1 := h ++ [Heap.OCategory newCat]).
  set (h2 := h1 ++ [Heap.OArray (elems ++ [length h])]).
  assert (Hp1 : h `prefix_of` h1) by apply prefix_alloc.
  assert (Hp2 : h1 `prefix_of` h2) by apply prefix_alloc.
  assert (Hp12 : h `prefix_of` h2) by (transitivity h1; assumption).
  assert (Hnew : cat_at h2 (length h) newCat).
  { apply (cat_at_mono h1); [exact Hp2|]. apply lookup_alloc. }
  unfold Heap.bind at 1. unfold Heap.alloc at 1.
  unfold Heap.bind at 1. unfold Heap.alloc at 1. fold h1. fold h2.
  unfold Heap.bind at 1.
  rewrite (load_record_Some h2 _ (scores s));
    [|apply (record_at_mono h); [exact Hp12|exact Hr]].
  unfold Heap.bind at 1. rewrite (load_category_Some _ _ _ Hnew).
  unfold Heap.bind, Heap.alloc, Heap.ret.
  eexists _, _. split; [reflexivity|].
  set (h3 := h2 ++ _).
  assert (Hp3 : h2 `prefix_of` h3) by apply prefix_alloc.
  assert (Hp : h `prefix_of` h3) by (transitivity h2; assumption).
  split; [exact Hp|].
  split; [|split; [|split]]; simpl; [| | |auto].
  - exists (elems ++ [length h]). split.
    + apply (prefix_lookup_Some h2); [|exact Hp3]. apply lookup_alloc.
    + apply Forall2_app.
      * eapply Forall2_impl; [exact Hcs|]. intros. now apply (cat_at_mono h).
      * constructor; [|constructor]. now apply (cat_at_mono h2).
  - apply lookup_alloc.
  - now apply (snaps_at_mono h).
Qed.

Lemma filter_bool_ne (id : string) (cs : list Category) :
  List.filter (fun c => negb (String.eqb (cat_id c) id)) cs
  = filter (fun c => cat_id c <> id) cs.
Proof.
  induction cs as [|c cs IH]; [reflexivity|].
  simpl. rewrite filter_cons, IH.
  destruct (String.eqb_spec (cat_id c) id) as [E|E]; simpl.
  - now rewrite decide_False by (intros H; now apply H).
  - now rewrite decide_True.
Qed.

Lemma store_last h (o o' : Heap.object) :
  Heap.store (length h) o' (h ++ [o]) = Some (tt, h ++ [o']).
Proof.
  unfold Heap.store, Heap.heap, Heap.loc.
  rewrite decide_True by (rewrite length_app; simpl; lia).
  rewrite insert_app_r_alt by lia. now rewrite Nat.sub_diag.
Qed.

Lemma handleRemoveCategory_runs h st s id :
  state_at h st s ->
  runs_to (Heap.handleRemoveCategory id st) h (handleRemoveCategory id s).
Proof.
  intros (Hc & Hr & Hs & H1 & H2 & H3).
  destruct Hc as (elems & Hl & Hcs).
  unfold runs_to, Heap.handleRemoveCategory, handleRemoveCategory.
  unfold Heap.bind at 1. rewrite (load_array_Some _ _ _ Hl).
  destruct (filter_refs_Some h (fun c => negb (String.eqb (cat_id c) id)) _ _ Hcs)
    as (kept & Hk & Hkept).
  rewrite filter_bool_ne in Hkept.
  unfold Heap.bind at 1. rewrite Hk.
  unfold Heap.bind at 1. unfold Heap.alloc at 1.
  set (h1 := h ++ [Heap.OArray kept]).
  assert (Hp1 : h `prefix_of` h1) by apply prefix_alloc.
  unfold Heap.bind at 1.
  rewrite (load_record_Some h1 _ (scores s)) by (now apply (record_at_mono h)).
  unfold Heap.bind at 1. unfold Heap.alloc at 1.
  set (h2 := h1 ++ [Heap.ORecord (scores s)]).
  assert (Hp2 : h1 `prefix_of` h2) by apply prefix_alloc.
  assert (Hp12 : h `prefix_of` h2) by (transitivity h1; assumption).
  unfold Heap.bind at 1.
  rewrite (load_categories_Some h2 elems (categories s))
    by (eapply Forall2_impl; [exact Hcs|]; intros; now apply (cat_at_mono h)).
  assert (Hcats : forall h3, h1 `prefix_of` h3 ->
            cats_at h3 (length h) (filter (fun c => cat_id c <> id) (categories s))).
  { intros h3 Hp3. exists kept. split.
    - apply (prefix_lookup_Some h1); [|exact Hp3]. apply lookup_alloc.
    - eapply Forall2_impl; [exact Hkept|]. intros. apply (cat_at_mono h); [|assumption].
      now transitivity h1. }
  destruct (find _ (categories s)) as [cat|].
  - unfold Heap.bind at 1. unfold Heap.bind at 1.
    rewrite (load_record_Some h2 (length h1) (scores s)) by apply lookup_alloc.
    unfold h2 at 1. rewrite store_last. unfold Heap.ret.
    set (h3 := h1 ++ _).
    assert (Hp3 : h1 `prefix_of` h3) by apply prefix_alloc.
    assert (Hp : h `prefix_of` h3) by (transitivity h1; assumption).
    eexists _, _. split; [reflexivity|]. split; [exact Hp|].
    split; [|split; [|split]]; simpl; [| | |auto].
    + now apply Hcats.
    + apply lookup_alloc.
    + now apply (snaps_at_mono h).
  - unfold Heap.bind, Heap.ret.
    eexists _, _. split; [reflexivity|]. split; [exact Hp12|].
    split; [|split; [|split]]; simpl; [| | |auto].
    + now apply Hcats.
    + apply lookup_alloc.
    + now apply (snaps_at_mono h).
Qed.

(** A save runs; the new snapshot object is the head of the history
    array and stands for the values of the live state at that time. *)
Lemma handleSaveAssessment_runs h st s id date time iso :
  state_at h st s ->
  exists st' h' l,
    Heap.handleSaveAssessment id date time iso st h = Some (st', h')
    /\ h `prefix_of` h'
    /\ state_at h' st' (handleSaveAssessment id date time iso s)
    /\ Heap.newest h' st' = Some l
    /\ (length h <= l)%nat
    /\ snap_at h' l (snapshot_of id date time iso s).
Proof.
  intros (Hc & Hr & Hs & H1 & H2 & H3).
  pose proof Hc as (elems & Hl & Hcs).
  pose proof Hs as (old & Hol & Hold).
  unfold Heap.handleSaveAssessment.
  unfold Heap.bind at 1. rewrite (load_record_Some _ _ _ Hr).
  unfold Heap.bind at 1. unfold Heap.alloc at 1.
  set (h1 := h ++ [Heap.ORecord (scores s)]).
  assert (Hp1 : h `prefix_of` h1) by apply prefix_alloc.
  unfold Heap.bind at 1.
  rewrite (load_array_Some h1 _ elems) by (now apply (prefix_lookup_Some h)).
  unfold Heap.bind at 1. unfold Heap.alloc at 1.
  set (h2 := h1 ++ [Heap.OArray elems]).
  assert (Hp2 : h `prefix_of` h2) by (transitivity h1; [assumption | apply prefix_alloc]).
  unfold Heap.bind at 1. unfold Heap.alloc at 1.
  set (h3 := h2 ++ [Heap.OSnapshot _ _ _ _ _]).
  assert (Hp3 : h `prefix_of` h3) by (transitivity h2; [assumption | apply prefix_alloc]).
  unfold Heap.bind at 1.
  rewrite (load_array_Some h3 _ old) by (now apply (prefix_lookup_Some h)).
  unfold Heap.bind, Heap.alloc, Heap.ret.
  set (h4 := h3 ++ _).
  assert (Hp34 : h3 `prefix_of` h4) by apply prefix_alloc.
  assert (Hp4 : h `prefix_of` h4) by (transitivity h3; assumption).
  assert (Hsnap : snap_at h4 (length h2) (snapshot_of id date time iso s)).
  { exists (length h), (length h1). split; [|split].
    - apply (prefix_lookup_Some h3); [|exact Hp34]. apply lookup_alloc.
    - apply (prefix_lookup_Some h1); [apply lookup_alloc|].
      transitivity h2; [apply prefix_alloc|]. transitivity h3; [apply prefix_alloc|assumption].
    - exists elems. split.
      + apply (prefix_lookup_Some h2); [apply lookup_alloc|].
        transitivity h3; [apply prefix_alloc|assumption].
      + eapply Forall2_impl; [exact Hcs|]. intros. now apply (cat_at_mono h). }
  exists (Heap.mkRefs (Heap.categories st) (Heap.scores st) (Heap.customLabel st)
            (Heap.customDescription st) (length h3) (Some id)), h4, (length h2).
  split; [reflexivity|]. split; [exact Hp4|].
  split; [|split; [|split]].
  - split; [|split; [|split]]; simpl; [| | |auto].
    + now apply (cats_at_mono h).
    + now apply (record_at_mono h).
    + exists (length h2 :: old). split; [apply lookup_alloc|].
      constructor; [exact Hsnap|].
      eapply Forall2_impl; [exact Hold|]. intros. now apply (snap_at_mono h).
  - unfold Heap.newest. simpl. unfold h4. now rewrite lookup_alloc.
  - unfold h2, h1. rewrite !length_app. simpl. lia.
  - exact Hsnap.
Qed.

Lemma run_op_runs h st s (o : Heap.op) :
  state_at h st s -> runs_to (Heap.run_op o st) h (apply_op o s).
Proof.
  intros Hst. destruct o as [label value|now label description|id|id date time iso]; simpl.
  - now apply handleScoreChange_runs.
  - apply handleAddCategory_runs.
    destruct Hst as (Hc & Hr & Hs & _ & _ & Hsel).
    split; [|split; [|split; [|split; [|split]]]]; simpl; auto.
  - now apply handleRemoveCategory_runs.
  - destruct (handleSaveAssessment_runs h st s id date time iso Hst)
      as (st' & h' & l & Hrun & Hp & Hst' & _).
    now exists st', h'.
Qed.

Lemma run_ops_runs (os : list Heap.op) h st s :
  state_at h st s -> runs_to (Heap.run_ops os st) h (apply_ops os s).
Proof.
  revert h st s. induction os as [|o os IH]; intros h st s Hst; simpl.
  - exists st, h. split; [reflexivity|]. split; [reflexivity | exact Hst].
  - destruct (run_op_runs h st s o Hst) as (st1 & h1 & Hrun & Hp & Hst1).
    destruct (IH h1 st1 _ Hst1) as (st2 & h2 & Hrun2 & Hp2 & Hst2).
    exists st2, h2. split; [|split].
    + unfold Heap.bind. now rewrite Hrun.
    + now transitivity h1.
    + exact Hst2.
Qed.

End HeapFacts.

(** C4: a save allocates a snapshot object that records the scores and
    the categories of the live state; whatever operations follow
    (setting scores, adding and removing categories, further saves),
    they run, every object that was in the store stays as it was, and
    the snapshot still reads as the scores and categories of the time of
    the save, while the live state has moved on. *)
Theorem C4_snapshot_immutable (h : Heap.heap) (st : Heap.state) (s : State)
    (id date time iso : string) (ops : list Heap.op) :
  Heap.read_state h st = Some s ->
  exists st1 h1 l st2 h2,
    Heap.handleSaveAssessment id date time iso st h = Some (st1, h1)
    /\ Heap.newest h1 st1 = Some l
    /\ Heap.read_snapshot h1 l
       = Some (mkStoredAssessment id ("Assessment " +:+ date +:+ " " +:+ time) iso
                 (scores s) (categories s))
    /\ Heap.run_ops ops st1 h1 = Some (st2, h2)
    /\ (forall l' o, h1 !! l' = Some o -> h2 !! l' = Some o)
    /\ Heap.read_snapshot h2 l
       = Some (mkStoredAssessment id ("Assessment " +:+ date +:+ " " +:+ time) iso
                 (scores s) (categories s))
    /\ Heap.read_state h2 st2
       = Some (apply_ops ops (handleSaveAssessment id date time iso s)).
Proof.
  intros Hst. apply read_state_inv in Hst.
  destruct (handleSaveAssessment_runs h st s id date time iso Hst)
    as (st1 & h1 & l & Hsave & _ & Hst1 & Hnew & _ & Hsnap).
  destruct (run_ops_runs ops h1 st1 _ Hst1) as (st2 & h2 & Hrun & Hp & Hst2).
  exists st1, h1, l, st2, h2.
  split; [exact Hsave|]. split; [exact Hnew|].
  split; [exact (read_snapshot_Some _ _ _ Hsnap)|].
  split; [exact Hrun|].
  split; [intros l' o Hl'; now apply (prefix_lookup_Some h1)|].
  split; [apply read_snapshot_Some; now apply (snap_at_mono h1)|].
  now apply read_state_Some.
Qed.

Lemma C4_witness :
  exists st1 h1 l st2 h2,
    Heap.handleSaveAssessment "id-1" "1/2/2026" "10:30 AM" "iso"
      (fst Heap.initial) (snd Heap.initial) = Some (st1, h1)
    /\ Heap.newest h1 st1 = Some l
    /\ Heap.read_snapshot h1 l
       = Some (mkStoredAssessment "id-1" "Assessment 1/2/2026 10:30 AM" "iso"
                 initial_scores DEFAULT_CATEGORIES)
    /\ Heap.run_ops
         [Heap.SetScore "Finances" 0; Heap.AddCategory 7 "Play" "";
          Heap.RemoveCategory "health"] st1 h1 = Some (st2, h2)
    /\ (forall l' o, h1 !! l' = Some o -> h2 !! l' = Some o)
    /\ Heap.read_snapshot h2 l
       = Some (mkStoredAssessment "id-1" "Assessment 1/2/2026 10:30 AM" "iso"
                 initial_scores DEFAULT_CATEGORIES)
    /\ Heap.read_state h2 st2
       = Some (apply_ops
                 [Heap.SetScore "Finances" 0; Heap.AddCategory 7 "Play" "";
                  Heap.RemoveCategory "health"]
                 (handleSaveAssessment "id-1" "1/2/2026" "10:30 AM" "iso" initial_state)).
Proof.
  apply (C4_snapshot_immutable (snd Heap.initial) (fst Heap.initial) initial_state
           "id-1" "1/2/2026" "10:30 AM" "iso").
  vm_compute. reflexivity.
Defined.

(** * Further properties of the code *)

(** ** White space at the ends *)

Lemma trimStart_no_lead (l : list ascii) : no_lead (JsString.trimStart_chars l).
Proof.
  induction l as [|c l IH]; simpl; [exact I|].
  destruct (JsString.is_space c) eqn:E; [exact IH | exact E].
Qed.

Lemma trimStart_fixed (l : list ascii) : no_lead l -> JsString.trimStart_chars l = l.
Proof. destruct l as [|c l]; simpl; [reflexivity|]. now intros ->. Qed.

Lemma trimStart_suffix (l : list ascii) :
  exists sp, l = sp ++ JsString.trimStart_chars l.
Proof.
  induction l as [|c l (sp & IH)]; simpl; [now exists []|].
  destruct (JsString.is_space c); [|now exists []].
  exists (c :: sp). simpl. now f_equal.
Qed.

Lemma trim_chars_idem (l : list ascii) :
  JsString.trim_chars (JsString.trim_chars l) = JsString.trim_chars l.
Proof.
  unfold JsString.trim_chars.
  set (a := JsString.trimStart_chars l).
  set (b := JsString.trimStart_chars (rev a)).
  assert (Ha : no_lead a) by apply trimStart_no_lead.
  assert (Hb : no_lead b) by apply trimStart_no_lead.
  destruct (trimStart_suffix (rev a)) as (sp & Hsp). fold b in Hsp.
  assert (Hra : a = rev b ++ rev sp).
  { rewrite <- (rev_involutive a), Hsp, rev_app_distr. reflexivity. }
  assert (Hrb : no_lead (rev b)).
  { destruct (rev b) as [|c r] eqn:E; [exact I|].
    rewrite Hra in Ha. exact Ha. }
  rewrite (trimStart_fixed (rev b) Hrb), rev_involutive.
  now rewrite (trimStart_fixed b Hb).
Qed.

Lemma trim_idem (s : string) : JsString.trim (JsString.trim s) = JsString.trim s.
Proof.
  unfold JsString.trim. rewrite list_ascii_of_string_of_list_ascii.
  now rewrite trim_chars_idem.
Qed.

Lemma toLowerCase_empty (s : string) : JsString.toLowerCase s = "" -> s = "".
Proof. destruct s; [reflexivity | discriminate]. Qed.

Lemma label_exists_false (trimmed : string) (cats : list Category) :
  label_exists trimmed cats = false ->
  JsString.toLowerCase trimmed ∉ map (fun c => JsString.toLowerCase (cat_label c)) cats.
Proof.
  intros H Hin. apply list_elem_of_fmap in Hin as (c & Hc & Hin).
  assert (label_exists trimmed cats = true); [|congruence].
  apply label_exists_iff. exists c. split; [exact Hin | now symmetry].
Qed.

Lemma NoDup_map_inj_on {A B} (f : A -> B) (l : list A) (x y : A) :
  NoDup (map f l) -> x ∈ l -> y ∈ l -> f x = f y -> x = y.
Proof.
  induction l as [|a l IH]; intros Hnd Hx Hy Hf; [now apply elem_of_nil in Hx|].
  change (map f (a :: l)) with (f a :: map f l) in Hnd.
  apply NoDup_cons in Hnd as [Ha Hnd].
  apply elem_of_cons in Hx as [-> | Hx]; apply elem_of_cons in Hy as [-> | Hy].
  - reflexivity.
  - destruct Ha. rewrite Hf. apply list_elem_of_fmap. now exists y.
  - destruct Ha. rewrite <- Hf. apply list_elem_of_fmap. now exists x.
  - now apply IH.
Qed.

Lemma find_some_eqb (id : string) (cats : list Category) (cat : Category) :
  find (fun c => String.eqb (cat_id c) id) cats = Some cat ->
  cat ∈ cats /\ cat_id cat = id.
Proof.
  intros H. apply find_some in H as [Hin He].
  split; [now apply list_elem_of_In | now apply String.eqb_eq].
Qed.

(** ** The registry stays well formed *)

Lemma registry_ok_initial : registry_ok initial_state.
Proof.
  split.
  - apply (bool_decide_unpack _). vm_compute. exact I.
  - unfold initial_state, categories, scores.
    repeat (apply Forall_cons; split;
            [split; [split; [discriminate | vm_compute; reflexivity] | vm_compute; eauto]|]).
    apply Forall_nil. exact I.
Qed.

Lemma registry_ok_step (o : Heap.op) (st : State) :
  registry_ok st -> registry_ok (apply_op o st).
Proof.
  intros [Hnd Hall]. destruct o as [label value|now label description|id|id date time iso]; simpl.
  - split; [exact Hnd|]. simpl. eapply Forall_impl; [exact Hall|].
    intros c [Hl [v Hv]]. split; [exact Hl|].
    destruct (decide (label = cat_label c)) as [-> | Hne].
    + rewrite lookup_insert_eq. eauto.
    + rewrite lookup_insert_ne by exact Hne. eauto.
  - unfold addCategory, handleAddCategory. simpl.
    destruct (JsString.truthy (JsString.trim label)) eqn:Ht; simpl; [|now split].
    destruct (label_exists (JsString.trim label) (categories st)) eqn:He; [now split|].
    split; simpl.
    + rewrite map_app. simpl. apply NoDup_app. split; [exact Hnd|]. split.
      * intros x Hx Hx'. apply list_elem_of_singleton in Hx'. subst x.
        now apply (label_exists_false _ _ He).
      * apply NoDup_singleton.
    + apply Forall_app. split.
      * eapply Forall_impl; [exact Hall|].
        intros c [Hl [v Hv]]. split; [exact Hl|].
        destruct (decide (JsString.trim label = cat_label c)) as [-> | Hne].
        -- rewrite lookup_insert_eq. eauto.
        -- rewrite lookup_insert_ne by exact Hne. eauto.
      * apply Forall_singleton. simpl. split.
        -- split; [now apply truthy_true | apply trim_idem].
        -- rewrite lookup_insert_eq. eauto.
  - split; simpl.
    + now apply (NoDup_map_filter (fun c => JsString.toLowerCase (cat_label c))).
    + apply Forall_forall. intros c Hc.
      apply list_elem_of_filter in Hc as [Hid Hc].
      rewrite Forall_forall in Hall. destruct (Hall c Hc) as [Hl Hs].
      split; [exact Hl|].
      destruct (find _ (categories st)) as [cat|] eqn:Hf; [|exact Hs].
      apply find_some_eqb in Hf as [Hcat Hcid].
      rewrite lookup_delete_ne; [exact Hs|].
      intros Heq.
      assert (cat = c); [|congruence].
      apply (NoDup_map_inj_on (fun c => JsString.toLowerCase (cat_label c))
               (categories st)); [exact Hnd | exact Hcat | exact Hc |].
      simpl. now rewrite Heq.
  - split; [exact Hnd | exact Hall].
Qed.

Lemma registry_ok_all_rated (st : State) :
  registry_ok st -> active_of (categories st) (scores st) = categories st.
Proof.
  intros [_ Hall]. unfold active_of. apply filter_all.
  eapply Forall_impl; [exact Hall|]. intros c [_ Hs].
  unfold has_score. now apply bool_decide_eq_true.
Qed.

(** X1: in every state that the operations reach from the initial one
    (setting scores, adding and removing categories, saving), the labels
    of the registry are not empty, have no white space at either end and
    are pairwise distinct when case is ignored, and every category has a
    score entry: the insights rate the whole registry. *)
Theorem reachable_registry_ok (ops : list Heap.op) :
  let st := apply_ops ops initial_state in
  registry_ok st
  /\ active_of (categories st) (scores st) = categories st.
Proof.
  cbv zeta.
  assert (H : forall st, registry_ok st -> registry_ok (apply_ops ops st)).
  { induction ops as [|o ops IH]; intros st Hst; simpl; [exact Hst|].
    apply IH. now apply registry_ok_step. }
  pose proof (H _ registry_ok_initial) as Hok.
  split; [exact Hok | now apply registry_ok_all_rated].
Qed.

(** ** Ids *)

Lemma derived_id_ok (trimmed : string) : trimmed <> "" -> id_ok (derived_id trimmed).
Proof.
  intros H. split; [now apply derived_id_nonempty|].
  unfold derived_id, JsString.replace_non_alnum.
  rewrite list_ascii_of_string_of_list_ascii. apply replace_runs_class.
Qed.

Lemma ids_ok_initial : Forall (fun c => id_ok (cat_id c)) (categories initial_state).
Proof.
  unfold initial_state, categories, DEFAULT_CATEGORIES.
  repeat (constructor;
          [split; [discriminate|]; simpl;
           repeat (constructor; [left; reflexivity|]); constructor|]).
  constructor.
Qed.

Lemma ids_ok_step (o : Heap.op) (st : State) :
  Forall (fun c => id_ok (cat_id c)) (categories st) ->
  Forall (fun c => id_ok (cat_id c)) (categories (apply_op o st)).
Proof.
  intros H. destruct o as [label value|now label description|id|id date time iso]; simpl;
    try exact H.
  - unfold addCategory, handleAddCategory. simpl.
    destruct (JsString.truthy (JsString.trim label)) eqn:Ht; simpl; [|exact H].
    destruct (label_exists _ _); [exact H|]. simpl.
    apply Forall_app. split; [exact H|]. apply Forall_singleton. simpl.
    apply truthy_true in Ht.
    pose proof (derived_id_nonempty _ Ht) as Hne. apply truthy_true in Hne.
    rewrite Hne. now apply derived_id_ok.
  - apply Forall_forall. intros c Hc. apply list_elem_of_filter in Hc as [_ Hc].
    rewrite Forall_forall in H. now apply H.
Qed.

(** X2: in every state that the operations reach from the initial one,
    every id of the registry is not empty and made of the characters
    a-z, 0-9 and the hyphen. *)
Theorem reachable_ids_ok (ops : list Heap.op) :
  Forall (fun c => id_ok (cat_id c)) (categories (apply_ops ops initial_state)).
Proof.
  assert (H : forall st, Forall (fun c => id_ok (cat_id c)) (categories st) ->
                         Forall (fun c => id_ok (cat_id c)) (categories (apply_ops ops st))).
  { induction ops as [|o ops IH]; intros st Hst; simpl; [exact Hst|].
    apply IH. now apply ids_ok_step. }
  apply H, ids_ok_initial.
Qed.

(** ** The derivation of an id *)

Lemma lower_char_idem (c : ascii) :
  JsString.lower_char (JsString.lower_char c) = JsString.lower_char c.
Proof. destruct c as [[] [] [] [] [] [] [] []]; reflexivity. Qed.

Lemma toLowerCase_idem (s : string) :
  JsString.toLowerCase (JsString.toLowerCase s) = JsString.toLowerCase s.
Proof.
  unfold JsString.toLowerCase. rewrite list_ascii_of_string_of_list_ascii.
  rewrite map_map. f_equal. apply map_ext. intros c. apply lower_char_idem.
Qed.

Lemma lower_char_slug (c : ascii) : slug_char c -> JsString.lower_char c = c.
Proof.
  intros [H | ->]; [|reflexivity].
  revert H. destruct c as [[] [] [] [] [] [] [] []]; vm_compute; congruence.
Qed.

Lemma replace_runs_idem (s : list ascii) :
  (forall b, JsString.replace_runs false (JsString.replace_runs b s)
             = JsString.replace_runs b s)
  /\ JsString.replace_runs true (JsString.replace_runs true s)
     = JsString.replace_runs true s.
Proof.
  induction s as [|c s [IHP IHQ]]; [split; [intros b|]; reflexivity|].
  split.
  - intros b. simpl. destruct (JsString.is_lower_alnum c) eqn:Hc.
    + simpl. rewrite Hc. f_equal. apply IHP.
    + destruct b; [apply IHP|].
      simpl. change (JsString.is_lower_alnum "-") with false. cbv iota.
      f_equal. exact IHQ.
  - simpl. destruct (JsString.is_lower_alnum c) eqn:Hc; [|exact IHQ].
    simpl. rewrite Hc. f_equal. apply IHP.
Qed.

(** X12: the id derived from a label does not depend on the case of
    the label, and deriving an id from an id gives the id back. *)
Theorem derived_id_stable (s : string) :
  derived_id (JsString.toLowerCase s) = derived_id s
  /\ derived_id (derived_id s) = derived_id s
  /\ (forall s', JsString.toLowerCase s = JsString.toLowerCase s' ->
                 derived_id s = derived_id s').
Proof.
  split; [|split].
  - unfold derived_id. now rewrite toLowerCase_idem.
  - unfold derived_id at 1.
    assert (Hl : JsString.toLowerCase (derived_id s) = derived_id s).
    { unfold JsString.toLowerCase.
      rewrite <- (string_of_list_ascii_of_string (derived_id s)) at 2. f_equal.
      rewrite <- (map_id (list_ascii_of_string (derived_id s))) at 2.
      apply map_ext_in. intros c Hc. apply lower_char_slug.
      unfold derived_id, JsString.replace_non_alnum in Hc.
      rewrite list_ascii_of_string_of_list_ascii in Hc.
      pose proof (replace_runs_class false
                    (list_ascii_of_string (JsString.toLowerCase s))) as Hcl.
      rewrite Forall_forall in Hcl. apply Hcl. now apply list_elem_of_In. }
    rewrite Hl. unfold derived_id, JsString.replace_non_alnum.
    rewrite list_ascii_of_string_of_list_ascii. f_equal.
    apply (proj1 (replace_runs_idem _)).
  - intros s' H. unfold derived_id. now rewrite H.
Qed.

(** ** Removing *)

(** X5: removing an id that no category has leaves the whole state as
    it is. *)
Theorem remove_absent_id (id : string) (st : State) :
  id ∉ map cat_id (categories st) -> handleRemoveCategory id st = st.
Proof.
  intros Hid. unfold handleRemoveCategory.
  assert (Hf : filter (fun c => cat_id c <> id) (categories st) = categories st).
  { apply filter_all, Forall_forall. intros c Hc Heq. apply Hid.
    apply list_elem_of_fmap. exists c. now split. }
  assert (Hn : find (fun c => String.eqb (cat_id c) id) (categories st) = None).
  { destruct (find _ _) as [cat|] eqn:E; [|reflexivity].
    apply find_some_eqb in E as [Hc Heq]. destruct Hid.
    apply list_elem_of_fmap. exists cat. now split. }
  rewrite Hf, Hn. now destruct st.
Qed.

Lemma remove_absent_id_witness :
  handleRemoveCategory "no-such-id" initial_state = initial_state.
Proof.
  apply remove_absent_id. apply (bool_decide_unpack _). vm_compute. exact I.
Defined.

Lemma find_unique (id : string) (cats : list Category) (c : Category) :
  NoDup (map cat_id cats) -> c ∈ cats -> cat_id c = id ->
  find (fun c => String.eqb (cat_id c) id) cats = Some c.
Proof.
  intros Hnd Hc Hid.
  destruct (find _ cats) as [cat|] eqn:E.
  - apply find_some_eqb in E as [Hcat Hcid]. f_equal.
    apply (NoDup_map_inj_on cat_id cats); auto. congruence.
  - exfalso. pose proof (find_none _ _ E c) as Hn. simpl in Hn.
    rewrite (proj2 (String.eqb_eq _ _) Hid) in Hn.
    specialize (Hn (proj1 (list_elem_of_In _ _) Hc)). discriminate.
Qed.

(** X6: when ids and labels are pairwise distinct, removing the id of
    a category takes away exactly that category and exactly its score
    entry; the other categories keep their scores. *)
Theorem remove_unique_id (c : Category) (st : State) :
  NoDup (map cat_id (categories st)) ->
  NoDup (map cat_label (categories st)) ->
  c ∈ categories st ->
  let st' := handleRemoveCategory (cat_id c) st in
  (forall c', c' ∈ categories st' <-> c' ∈ categories st /\ c' <> c)
  /\ S (length (categories st')) = length (categories st)
  /\ scores st' = delete (cat_label c) (scores st)
  /\ (forall c', c' ∈ categories st' -> scores st' !! cat_label c' = scores st !! cat_label c').
Proof.
  intros Hid Hlab Hc. cbv zeta. unfold handleRemoveCategory. simpl.
  rewrite (find_unique (cat_id c) (categories st) c Hid Hc eq_refl).
  assert (Hmem : forall c', c' ∈ filter (fun x => cat_id x <> cat_id c) (categories st)
                            <-> c' ∈ categories st /\ c' <> c).
  { intros c'. rewrite list_elem_of_filter. split.
    - intros [Hne Hc']. split; [exact Hc'|]. intros ->. now apply Hne.
    - intros [Hc' Hne]. split; [|exact Hc']. intros Heq. apply Hne.
      now apply (NoDup_map_inj_on cat_id (categories st)). }
  split; [exact Hmem|]. split.
  - apply filter_other_ids_length; [exact Hid|].
    apply list_elem_of_fmap. now exists c.
  - split; [reflexivity|]. intros c' Hc'. apply Hmem in Hc' as [Hc' Hne].
    apply lookup_delete_ne. intros Heq. apply Hne. symmetry.
    now apply (NoDup_map_inj_on cat_label (categories st)).
Qed.

Lemma remove_unique_id_witness :
  scores (handleRemoveCategory "fun" initial_state)
  = delete "Fun & Recreation" (scores initial_state).
Proof.
  apply (remove_unique_id
           (mkCategory "fun" "Fun & Recreation"
              "Play, hobbies, and activities that recharge you.") initial_state).
  - apply (bool_decide_unpack _). vm_compute. exact I.
  - apply (bool_decide_unpack _). vm_compute. exact I.
  - apply list_elem_of_In. simpl. tauto.
Defined.

(** ** Adding and removing together *)

Lemma find_app_none {A} (f : A -> bool) (l1 l2 : list A) :
  find f l1 = None -> find f (l1 ++ l2) = find f l2.
Proof.
  induction l1 as [|x l1 IH]; simpl; [reflexivity|].
  destruct (f x); [discriminate | exact IH].
Qed.

(** X3: with labels within ASCII, adding a category whose label, id
    and score entry are new and then removing it by its id gives back
    the registry and the score store. *)
Theorem add_then_remove (now : Z) (st : State) :
  let trimmed := JsString.trim (customLabel st) in
  ascii_labels st ->
  trimmed <> "" ->
  (forall c, c ∈ categories st ->
     JsString.toLowerCase (cat_label c) <> JsString.toLowerCase trimmed) ->
  derived_id trimmed ∉ map cat_id (categories st) ->
  scores st !! trimmed = None ->
  let st' := handleRemoveCategory (derived_id trimmed) (handleAddCategory now st) in
  categories st' = categories st /\ scores st' = scores st.
Proof.
  cbv zeta. intros _ Hne Hfresh Hid Hsc.
  pose proof (derived_id_nonempty _ Hne) as Hd. apply truthy_true in Hd as Hd'.
  apply truthy_true in Hne as Ht.
  assert (He : label_exists (JsString.trim (customLabel st)) (categories st) = false).
  { destruct (label_exists _ _) eqn:He; [|reflexivity].
    apply label_exists_iff in He as (c & Hc & Heq). now destruct (Hfresh c Hc). }
  unfold handleAddCategory. rewrite Ht, He. cbv beta iota zeta. simpl negb. cbv iota.
  set (trimmed := JsString.trim (customLabel st)) in *.
  assert (Hex : exists nc, newCat_of now trimmed (customDescription st) = nc
                           /\ cat_id nc = derived_id trimmed /\ cat_label nc = trimmed).
  { eexists. split; [reflexivity|]. unfold newCat_of. simpl. now rewrite Hd'. }
  destruct Hex as (nc & -> & Hnew & Hlab).
  unfold handleRemoveCategory. simpl. rewrite Hlab.
  assert (Hf : filter (fun c => cat_id c <> derived_id trimmed) (categories st)
               = categories st).
  { apply filter_all, Forall_forall. intros c Hc Heq. apply Hid.
    apply list_elem_of_fmap. exists c. now split. }
  assert (Hn : find (fun c => String.eqb (cat_id c) (derived_id trimmed)) (categories st)
               = None).
  { destruct (find _ _) as [cat|] eqn:E; [|reflexivity].
    apply find_some_eqb in E as [Hc Heq]. destruct Hid.
    apply list_elem_of_fmap. exists cat. now split. }
  split.
  - rewrite filter_app, Hf, filter_cons_False, filter_nil, app_nil_r; [reflexivity|].
    intros H. now apply H.
  - rewrite (find_app_none _ _ _ Hn). simpl. rewrite Hnew, String.eqb_refl, Hlab.
    rewrite delete_insert_eq. now apply delete_id.
Qed.

Lemma add_then_remove_witness :
  let st := mkState DEFAULT_CATEGORIES initial_scores " Side Projects!! " "" [] None in
  categories (handleRemoveCategory "side-projects-" (handleAddCategory 0 st))
  = DEFAULT_CATEGORIES
  /\ scores (handleRemoveCategory "side-projects-" (handleAddCategory 0 st))
     = initial_scores.
Proof.
  apply (add_then_remove 0
           (mkState DEFAULT_CATEGORIES initial_scores " Side Projects!! " "" [] None)).
  - split; [reflexivity|]. unfold categories, DEFAULT_CATEGORIES.
    repeat (constructor; [reflexivity|]). constructor.
  - discriminate.
  - apply Forall_forall. unfold categories, DEFAULT_CATEGORIES.
    repeat (constructor; [vm_compute; discriminate|]). constructor.
  - apply (bool_decide_unpack _). vm_compute. exact I.
  - vm_compute. reflexivity.
Defined.

(** X4: adding a label a second time, in any case and with any white
    space around it, changes neither the registry nor the scores. *)
Theorem add_same_label_twice (now now' : Z) (l d l' d' : string) (st : State) :
  JsString.toLowerCase (JsString.trim l') = JsString.toLowerCase (JsString.trim l) ->
  let st1 := addCategory now l d st in
  let st2 := addCategory now' l' d' st1 in
  categories st2 = categories st1 /\ scores st2 = scores st1.
Proof.
  cbv zeta. intros Heq.
  assert (Hsecond : forall s1 : State,
            (JsString.trim l' = ""
             \/ exists c, c ∈ categories s1
                  /\ JsString.toLowerCase (cat_label c)
                     = JsString.toLowerCase (JsString.trim l')) ->
            categories (addCategory now' l' d' s1) = categories s1
            /\ scores (addCategory now' l' d' s1) = scores s1).
  { intros s1 H. unfold addCategory, handleAddCategory. simpl.
    destruct H as [H | H].
    - apply truthy_false in H. rewrite H. simpl. now split.
    - apply label_exists_iff in H.
      destruct (JsString.truthy _); simpl; [|now split].
      rewrite H. now split. }
  apply Hsecond.
  unfold addCategory, handleAddCategory. simpl.
  destruct (JsString.truthy (JsString.trim l)) eqn:Ht; simpl.
  - destruct (label_exists (JsString.trim l) (categories st)) eqn:He.
    + right. apply label_exists_iff in He as (c & Hc & Hl).
      exists c. split; [exact Hc | congruence].
    + right. simpl. eexists. split.
      * apply elem_of_app. right. apply list_elem_of_here.
      * simpl. now symmetry.
  - left. apply truthy_false in Ht. rewrite Ht in Heq.
    now apply toLowerCase_empty.
Qed.

Lemma add_same_label_twice_witness :
  categories (addCategory 2 " PLAY" "again" (addCategory 1 "Play " "" initial_state))
  = categories (addCategory 1 "Play " "" initial_state)
  /\ scores (addCategory 2 " PLAY" "again" (addCategory 1 "Play " "" initial_state))
     = scores (addCategory 1 "Play " "" initial_state).
Proof.
  apply (add_same_label_twice 1 2 "Play " "" " PLAY" "again" initial_state).
  vm_compute. reflexivity.
Defined.

(** ** What the insights depend on *)

Lemma filter_ext_in {A} (P Q : A -> Prop) `{forall x, Decision (P x)}
    `{forall x, Decision (Q x)} (l : list A) :
  (forall x, x ∈ l -> (P x <-> Q x)) -> filter P l = filter Q l.
Proof.
  induction l as [|x l IH]; intros Hpq; [reflexivity|].
  rewrite !filter_cons.
  rewrite IH by (intros y Hy; apply Hpq; now right).
  pose proof (Hpq x (list_elem_of_here _ _)) as Hx.
  destruct (decide (P x)), (decide (Q x)); tauto.
Qed.

Lemma sort_ext_in {A} (f g : A -> A -> Z) (l : list A) :
  (forall x y, x ∈ l -> y ∈ l -> f x y = g x y) -> sort f l = sort g l.
Proof.
  induction l as [|x l IH]; intros Hfg; [reflexivity|].
  simpl. rewrite <- IH by (intros a b Ha Hb; apply Hfg; now right).
  assert (Hins : forall k, (forall y, y ∈ k -> y ∈ l) ->
                           sort_insert f x k = sort_insert g x k).
  { induction k as [|y k IHk]; intros Hk; [reflexivity|]. simpl.
    rewrite (Hfg x y) by ((now left) || (right; apply Hk; now left)).
    rewrite IHk by (intros z Hz; apply Hk; now right). reflexivity. }
  apply Hins. intros y Hy.
  apply list_elem_of_In. apply list_elem_of_In in Hy.
  eapply Permutation_in; [|exact Hy].
  clear. induction l as [|a l IHl]; simpl; [reflexivity|].
  assert (Hp : forall k, Permutation (sort_insert f a k) (a :: k)).
  { induction k as [|b k IHk]; simpl; [reflexivity|].
    destruct (f a b <=? 0); [reflexivity|]. rewrite IHk. apply perm_swap. }
  rewrite Hp. now constructor.
Qed.

(** X7: the insights depend on the score store only through the
    entries under the labels of the registry: two stores that agree
    there give the same insights. *)
Theorem insights_depend_on_registry_scores (cats : list Category)
    (scs1 scs2 : gmap string Z) :
  (forall c, c ∈ cats -> scs1 !! cat_label c = scs2 !! cat_label c) ->
  generateInsights cats scs1 = generateInsights cats scs2.
Proof.
  intros Hagree.
  assert (Hsc : forall c, c ∈ cats -> score_of scs1 c = score_of scs2 c).
  { intros c Hc. unfold score_of. now rewrite Hagree. }
  assert (Hact : active_of cats scs1 = active_of cats scs2).
  { unfold active_of. apply filter_ext_in. intros c Hc.
    unfold has_score. now rewrite Hagree. }
  assert (Hin : forall c, c ∈ active_of cats scs2 -> c ∈ cats).
  { intros c Hc. unfold active_of in Hc. now apply list_elem_of_filter in Hc as [_ Hc]. }
  assert (Hlow : lowest_of cats scs1 = lowest_of cats scs2).
  { unfold lowest_of, lowestSorted_of. rewrite Hact. f_equal.
    apply sort_ext_in. intros x y Hx Hy. unfold by_score.
    now rewrite (Hsc x (Hin x Hx)), (Hsc y (Hin y Hy)). }
  assert (Hlin : forall c, c ∈ lowest_of cats scs2 -> c ∈ cats).
  { intros c Hc. apply Hin. unfold lowest_of, lowestSorted_of in Hc.
    apply list_elem_of_In. apply list_elem_of_In in Hc.
    apply (Permutation_in c (sort_Permutation (score_of scs2) (active_of cats scs2))).
    apply list_elem_of_In. apply list_elem_of_In in Hc.
    rewrite <- (take_drop 3 (sort _ _)). apply elem_of_app. now left. }
  unfold generateInsights. rewrite Hact, Hlow.
  destruct (length (active_of cats scs2)); [reflexivity|].
  f_equal.
  - f_equal. f_equal. unfold average_of. f_equal; f_equal.
    + f_equal. apply map_ext_in. intros c Hc. apply Hsc, Hin. now apply list_elem_of_In.
    + now rewrite !length_map.
  - apply map_ext_in. intros c Hc. f_equal. apply Hsc, Hlin. now apply list_elem_of_In.
Qed.

Lemma insights_depend_on_registry_scores_witness :
  generateInsights DEFAULT_CATEGORIES (<["Orphan" := 0]> initial_scores)
  = generateInsights DEFAULT_CATEGORIES initial_scores.
Proof.
  apply insights_depend_on_registry_scores.
  apply Forall_forall. unfold DEFAULT_CATEGORIES.
  repeat (constructor; [vm_compute; reflexivity|]). constructor.
Defined.

(** X11: the placeholder summary with no highlights and no actions is
    given exactly when no category of the registry has a score entry. *)
Theorem cold_start_iff (cats : list Category) (scs : gmap string Z) :
  generateInsights cats scs = mkInsights (Some placeholder_summary) [] []
  <-> forall c, c ∈ cats -> scs !! cat_label c = None.
Proof.
  assert (Hact : active_of cats scs = [] <-> forall c, c ∈ cats -> scs !! cat_label c = None).
  { split.
    - intros H c Hc. destruct (scs !! cat_label c) eqn:E; [|reflexivity].
      assert (Hin : c ∈ active_of cats scs).
      { unfold active_of, has_score. apply list_elem_of_filter.
        split; [|exact Hc]. apply bool_decide_eq_true. rewrite E. eauto. }
      rewrite H in Hin. now apply elem_of_nil in Hin.
    - intros H. destruct (active_of cats scs) as [|c l] eqn:E; [reflexivity|].
      assert (Hin : c ∈ active_of cats scs) by (rewrite E; apply list_elem_of_here).
      unfold active_of, has_score in Hin. apply list_elem_of_filter in Hin as [Hs Hc].
      apply bool_decide_eq_true in Hs. rewrite (H c Hc) in Hs. now destruct Hs. }
  rewrite <- Hact. split.
  - intros H. apply (f_equal highlights) in H.
    rewrite generateInsights_highlights in H. simpl in H.
    apply (f_equal (@length _)) in H. rewrite length_map in H.
    unfold lowest_of, lowestSorted_of, by_score in H. rewrite length_take in H.
    rewrite (Permutation_length (sort_Permutation (score_of scs) (active_of cats scs))) in H.
    destruct (active_of cats scs); [reflexivity | simpl in H; lia].
  - apply generateInsights_cold_start.
Qed.

(** ** The chart of the page *)

(** X9: the chart has one series without a comparison and two with
    one, and every series has exactly one value for every label. *)
Theorem chart_series_aligned (labels : list string) (currentScores : gmap string Z)
    (comparison : option AssessmentSnapshot) :
  let d := WheelChart_data labels currentScores comparison in
  Forall (fun ds => length (ds_data ds) = length labels) (chart_datasets d)
  /\ length (chart_datasets d) = match comparison with Some _ => 2%nat | None => 1%nat end
  /\ (forall ds i, ds ∈ chart_datasets d ->
        (is_Some (ds_data ds !! i) <-> is_Some (chart_labels d !! i)))
  /\ (labels = [] -> Forall (fun ds => ds_data ds = []) (chart_datasets d)).
Proof.
  cbv zeta. unfold WheelChart_data, comparisonValues, currentValues, series_of. simpl.
  assert (Hall : Forall (fun ds => length (ds_data ds) = length labels)
                   (chart_datasets
                      (WheelChart_data labels currentScores comparison))).
  { unfold WheelChart_data, comparisonValues, currentValues, series_of. simpl.
    destruct comparison as [c|]; repeat constructor; simpl; apply length_map. }
  split; [exact Hall|]. split; [now destruct comparison|]. split.
  - intros ds i Hds.
    assert (Hlen : length (ds_data ds) = length labels).
    { rewrite Forall_forall in Hall. now apply Hall. }
    rewrite !lookup_lt_is_Some, Hlen. reflexivity.
  - intros ->. destruct comparison; repeat constructor.
Qed.

(** X8: right after a save (with a non-empty id) the chart shows two
    series over the registry: the live scores, and the same values
    again from the new snapshot, except under a category labelled
    [__proto__], where the comparison reads the prototype and not the
    score.  With no such label the two series are the same: the new
    snapshot overlays the live wheel. *)
Theorem fresh_save_overlays_live (id date time iso : string) (st : State) :
  id <> "" ->
  let st' := handleSaveAssessment id date time iso st in
  let live := fun c => JsObject.nullish
                         (JsObject.get (JsObject.Val <$> scores st) (cat_label c))
                         (JsObject.Val 0) in
  map ds_data (chart_datasets (chart st'))
  = [map live (categories st);
     map (fun c => if String.eqb (cat_label c) "__proto__"
                   then JsObject.Builtin "__proto__" else live c)
       (categories st)]
  /\ ("__proto__" ∉ map cat_label (categories st) ->
      map ds_data (chart_datasets (chart st'))
      = [map live (categories st); map live (categories st)]).
Proof.
  intros Hid. cbv zeta.
  assert (Hcmp : comparisonSnapshot (handleSaveAssessment id date time iso st)
                 = Some (mkAssessmentSnapshot id ("Assessment " +:+ date +:+ " " +:+ time)
                           iso (scoresByLabel (snapshot_of id date time iso st)))).
  { unfold comparisonSnapshot, handleSaveAssessment. simpl.
    destruct id as [|c id]; [contradiction|]. simpl.
    now rewrite Ascii.eqb_refl, String.eqb_refl. }
  assert (Hfirst : map ds_data (chart_datasets (chart (handleSaveAssessment id date time iso st)))
                   = [map (fun c => JsObject.nullish
                                      (JsObject.get (JsObject.Val <$> scores st) (cat_label c))
                                      (JsObject.Val 0)) (categories st);
                      map (fun c => if String.eqb (cat_label c) "__proto__"
                                    then JsObject.Builtin "__proto__"
                                    else JsObject.nullish
                                           (JsObject.get (JsObject.Val <$> scores st) (cat_label c))
                                           (JsObject.Val 0))
                        (categories st)]).
  { unfold chart. rewrite Hcmp.
    unfold WheelChart_data, comparisonValues, currentValues, series_of,
      currentCategoriesLabels. simpl.
    rewrite !map_map. f_equal. f_equal.
    apply map_ext_in. intros c Hc.
    rewrite get_scoresByLabel. simpl sa_categories. simpl sa_scores.
    destruct (String.eqb (cat_label c) "__proto__") eqn:E.
    - apply String.eqb_eq in E. rewrite E.
      rewrite bool_decide_eq_false_2; [reflexivity|]. now intros [_ H].
    - apply String.eqb_neq in E.
      rewrite bool_decide_eq_true_2; [reflexivity|]. split; [|exact E].
      apply list_elem_of_fmap. exists c. split; [reflexivity|].
      now apply list_elem_of_In. }
  split; [exact Hfirst|].
  intros Hp. rewrite Hfirst. f_equal. f_equal.
  apply map_ext_in. intros c Hc.
  destruct (String.eqb (cat_label c) "__proto__") eqn:E; [|reflexivity].
  apply String.eqb_eq in E. destruct Hp. rewrite <- E.
  apply list_elem_of_fmap. exists c. split; [reflexivity|].
  now apply list_elem_of_In.
Qed.

Lemma fresh_save_overlays_live_witness :
  map ds_data (chart_datasets (chart (handleSaveAssessment "id-1" "d" "t" "iso" initial_state)))
  = [replicate 8 (JsObject.Val 5); replicate 8 (JsObject.Val 5)].
Proof.
  destruct (fresh_save_overlays_live "id-1" "d" "t" "iso" initial_state) as [_ H];
    [discriminate|].
  apply H. apply (bool_decide_unpack _). vm_compute. exact I.
Defined.

(** ** The selected comparison *)

Lemma find_first {A} (f : A -> bool) (l : list A) (x : A) :
  find f l = Some x ->
  exists l1 l2, l = l1 ++ x :: l2 /\ f x = true /\ Forall (fun y => f y = false) l1.
Proof.
  induction l as [|a l IH]; simpl; [discriminate|].
  destruct (f a) eqn:E.
  - intros [= ->]. exists [], l. repeat split; [exact E | constructor].
  - intros H. destruct (IH H) as (l1 & l2 & -> & Hx & Hl1).
    exists (a :: l1), l2. repeat split; [exact Hx | now constructor].
Qed.

(** X10: a comparison is shown only for the selected id, which is not
    empty, and it is built from the first snapshot of the history that
    has this id; its scores have an own entry exactly for the labels of
    the categories of that snapshot other than [__proto__]: the stored
    score, and where the snapshot stored none, 0, or for a label that
    names a property of [Object.prototype], that property. *)
Theorem comparison_is_first_match (st : State) (snap : AssessmentSnapshot) :
  comparisonSnapshot st = Some snap ->
  exists before a after,
    assessments st = before ++ a :: after
    /\ selectedComparisonId st = Some (sa_id a)
    /\ sa_id a <> ""
    /\ Forall (fun b => sa_id b <> sa_id a) before
    /\ snap = mkAssessmentSnapshot (sa_id a) (sa_name a) (sa_createdAt a) (scoresByLabel a)
    /\ (forall l, is_Some (snap_scores snap !! l)
                  <-> l ∈ map cat_label (sa_categories a) /\ l <> "__proto__")
    /\ (forall l z, l ∈ map cat_label (sa_categories a) -> l <> "__proto__" ->
          sa_scores a !! l = Some z ->
          snap_scores snap !! l = Some (JsObject.Val z))
    /\ (forall l, l ∈ map cat_label (sa_categories a) -> l <> "__proto__" ->
          sa_scores a !! l = None ->
          snap_scores snap !! l
          = Some (if bool_decide (l ∈ JsObject.prototype_keys)
                  then JsObject.Builtin l else JsObject.Val 0)).
Proof.
  unfold comparisonSnapshot.
  destruct (selectedComparisonId st) as [sid|]; [|discriminate].
  destruct (JsString.truthy sid) eqn:Ht; simpl; [|discriminate].
  destruct (find _ (assessments st)) as [a|] eqn:Hf; [|discriminate].
  intros [= <-].
  destruct (find_first _ _ _ Hf) as (before & after & Hl & Ha & Hb).
  apply String.eqb_eq in Ha. subst sid.
  exists before, a, after.
  split; [exact Hl|]. split; [reflexivity|].
  split; [now apply truthy_true|]. split.
  - eapply Forall_impl; [exact Hb|]. intros b Hne. simpl in Hne.
    now apply String.eqb_neq in Hne.
  - split; [reflexivity|]. simpl. split; [|split].
    + intros l. rewrite scoresByLabel_lookup.
      case_bool_decide as Hin; split; intros H; try exact Hin; eauto.
      * now destruct H.
      * contradiction.
    + intros l z Hin Hp Hz. rewrite scoresByLabel_lookup.
      rewrite bool_decide_eq_true_2 by now split.
      now rewrite get_Val, Hz.
    + intros l Hin Hp Hz. rewrite scoresByLabel_lookup.
      rewrite bool_decide_eq_true_2 by now split.
      rewrite get_Val, Hz. unfold JsObject.inherited.
      now case_bool_decide.
Qed.

Lemma comparison_is_first_match_witness :
  exists before a after,
    assessments (handleSaveAssessment "id-1" "d" "t" "iso" initial_state)
    = before ++ a :: after
    /\ selectedComparisonId (handleSaveAssessment "id-1" "d" "t" "iso" initial_state)
       = Some (sa_id a)
    /\ sa_id a <> ""
    /\ Forall (fun b => sa_id b <> sa_id a) before
    /\ mkAssessmentSnapshot "id-1" "Assessment d t" "iso"
         (scoresByLabel (snapshot_of "id-1" "d" "t" "iso" initial_state))
       = mkAssessmentSnapshot (sa_id a) (sa_name a) (sa_createdAt a) (scoresByLabel a)
    /\ (forall l, is_Some (scoresByLabel (snapshot_of "id-1" "d" "t" "iso" initial_state) !! l)
                  <-> l ∈ map cat_label (sa_categories a) /\ l <> "__proto__")
    /\ (forall l z, l ∈ map cat_label (sa_categories a) -> l <> "__proto__" ->
          sa_scores a !! l = Some z ->
          scoresByLabel (snapshot_of "id-1" "d" "t" "iso" initial_state) !! l
          = Some (JsObject.Val z))
    /\ (forall l, l ∈ map cat_label (sa_categories a) -> l <> "__proto__" ->
          sa_scores a !! l = None ->
          scoresByLabel (snapshot_of "id-1" "d" "t" "iso" initial_state) !! l
          = Some (if bool_decide (l ∈ JsObject.prototype_keys)
                  then JsObject.Builtin l else JsObject.Val 0)).
Proof.
  apply (comparison_is_first_match
           (handleSaveAssessment "id-1" "d" "t" "iso" initial_state)
           (mkAssessmentSnapshot "id-1" "Assessment d t" "iso"
              (scoresByLabel (snapshot_of "id-1" "d" "t" "iso" initial_state)))).
  reflexivity.
Defined.

(** A selected id that no snapshot of the history has gives no
    comparison. *)
Lemma comparison_unknown_id (st : State) (sid : string) :
  selectedComparisonId st = Some sid ->
  sid ∉ map sa_id (assessments st) ->
  comparisonSnapshot st = None.
Proof.
  intros Hs Hn. unfold comparisonSnapshot. rewrite Hs.
  destruct (JsString.truthy sid); simpl; [|reflexivity].
  destruct (find _ (assessments st)) as [a|] eqn:E; [|reflexivity].
  apply find_some in E as [Hin He]. apply String.eqb_eq in He.
  destruct Hn. apply list_elem_of_fmap. exists a. split; [now symmetry|].
  now apply list_elem_of_In.
Qed.

(** ** The theme *)

(** X13: after a theme is applied (with a document and a write that
    succeeds) the attribute of the document names it, the preferred
    theme read back from the storage is this theme whatever the system
    prefers, and a mount starts with it. *)
Theorem theme_survives_reload (write_ok : bool) (t : ThemeToggle.Theme)
    (p : ThemeToggle.Page) (matchMedia : option bool) :
  let p' := ThemeToggle.applyTheme true true t p in
  ThemeToggle.dataset_theme p' = Some (ThemeToggle.text t)
  /\ ThemeToggle.getPreferredTheme true
       (getItem "theme" (ThemeToggle.localStorage p')) matchMedia = Some t
  /\ ThemeToggle.mount true true write_ok matchMedia p'
     = Some (t, ThemeToggle.applyTheme true write_ok t p').
Proof.
  cbv zeta. unfold ThemeToggle.mount, ThemeToggle.getPreferredTheme, getItem,
    ThemeToggle.applyTheme. simpl.
  rewrite lookup_insert_eq.
  destruct t; simpl; auto.
Qed.

(** X14: a mount whose write succeeds, or that found its theme in the
    storage, leaves this theme stored: a second mount gives the same
    theme and page even when the preference of the system has changed
    in between, whether its own write succeeds or not.  When the write
    of the first mount fails and the storage held no theme, nothing is
    stored, and the second mount follows the preference of the system
    at its own time. *)
Theorem mount_freezes_preference (write_ok write_ok' : bool)
    (matchMedia matchMedia' : option bool)
    (p p' : ThemeToggle.Page) (t : ThemeToggle.Theme) :
  ThemeToggle.mount true true write_ok matchMedia p = Some (t, p') ->
  (write_ok = true
   \/ ThemeToggle.localStorage p !! "theme" = Some (ThemeToggle.text t) ->
   ThemeToggle.mount true true write_ok' matchMedia' p' = Some (t, p'))
  /\ (write_ok = false ->
      ThemeToggle.localStorage p !! "theme" <> Some "light" ->
      ThemeToggle.localStorage p !! "theme" <> Some "dark" ->
      ThemeToggle.localStorage p' = ThemeToggle.localStorage p
      /\ fst <$> ThemeToggle.mount true true write_ok' matchMedia' p'
         = Some (if default false matchMedia' then ThemeToggle.dark
                 else ThemeToggle.light)).
Proof.
  unfold ThemeToggle.mount.
  destruct (ThemeToggle.getPreferredTheme _ _ _) as [t0|]; [|discriminate].
  intros [= -> <-]. split.
  - intros H.
    assert (Hst : ThemeToggle.localStorage (ThemeToggle.applyTheme true write_ok t p)
                  !! "theme" = Some (ThemeToggle.text t)).
    { unfold ThemeToggle.applyTheme. simpl.
      destruct write_ok; [apply lookup_insert_eq|].
      destruct H as [H | H]; [discriminate | exact H]. }
    unfold ThemeToggle.getPreferredTheme, getItem. simpl negb. cbv iota.
    rewrite Hst.
    assert (Hpref : (if bool_decide (Some (ThemeToggle.text t) = Some "light")
                     then Some ThemeToggle.light
                     else if bool_decide (Some (ThemeToggle.text t) = Some "dark")
                          then Some ThemeToggle.dark
                          else Some (if default false matchMedia' then ThemeToggle.dark
                                     else ThemeToggle.light))
                    = Some t) by now destruct t.
    rewrite Hpref. f_equal. f_equal.
    unfold ThemeToggle.applyTheme in *. simpl in *.
    f_equal. destruct write_ok'; [|reflexivity].
    now apply insert_id.
  - intros -> Hl Hd. split; [reflexivity|].
    unfold ThemeToggle.getPreferredTheme, getItem, ThemeToggle.applyTheme. simpl.
    rewrite bool_decide_eq_false_2 by exact Hl.
    rewrite bool_decide_eq_false_2 by exact Hd.
    reflexivity.
Qed.

Lemma mount_freezes_preference_witness :
  ThemeToggle.mount true true false (Some false)
    (ThemeToggle.mkPage (Some "dark") (<["theme" := "dark"]> ∅))
  = Some (ThemeToggle.dark, ThemeToggle.mkPage (Some "dark") (<["theme" := "dark"]> ∅))
  /\ fst <$> ThemeToggle.mount true true true (Some false)
               (ThemeToggle.mkPage (Some "dark") ∅)
     = Some ThemeToggle.light.
Proof.
  split.
  - apply (mount_freezes_preference true false (Some true) (Some false)
             (ThemeToggle.mkPage None ∅)); [reflexivity | now left].
  - apply (mount_freezes_preference false true (Some true) (Some false)
             (ThemeToggle.mkPage None ∅) (ThemeToggle.mkPage (Some "dark") ∅)
             ThemeToggle.dark); [reflexivity | reflexivity | discriminate | discriminate].
Defined.

(** X15: from a state whose page was written for its theme, one toggle
    changes the theme, and the attribute of the document names the new
    theme even when the write to the storage fails.  Two toggles give
    back the theme and the attribute whatever the writes do; they give
    back the storage too when the second write succeeds or both writes
    fail, and when only the first write succeeds the storage keeps the
    other theme. *)
Theorem toggle_twice (write_ok1 write_ok2 : bool) (t : ThemeToggle.Theme)
    (p : ThemeToggle.Page) :
  let synced := (t, ThemeToggle.applyTheme true true t p) in
  let s1 := ThemeToggle.handleToggle true write_ok1 synced in
  let s2 := ThemeToggle.handleToggle true write_ok2 s1 in
  fst s1 <> t
  /\ ThemeToggle.dataset_theme (snd s1) = Some (ThemeToggle.text (fst s1))
  /\ fst s2 = t
  /\ ThemeToggle.dataset_theme (snd s2) = Some (ThemeToggle.text t)
  /\ (write_ok2 = true \/ write_ok1 = false -> s2 = synced)
  /\ (write_ok1 = true -> write_ok2 = false ->
      ThemeToggle.localStorage (snd s2) !! "theme" = Some (ThemeToggle.text (fst s1))
      /\ s2 <> synced).
Proof.
  cbv zeta. unfold ThemeToggle.handleToggle, ThemeToggle.applyTheme. simpl.
  split; [destruct t; discriminate|].
  split; [reflexivity|].
  split; [now destruct t|].
  split; [now destruct t|].
  split.
  - intros H. destruct t, write_ok1, write_ok2; simpl;
      rewrite ?insert_insert_eq; try reflexivity;
      destruct H; discriminate.
  - intros -> ->. simpl. split; [apply lookup_insert_eq|].
    intros Heq. apply (f_equal (fun s => ThemeToggle.localStorage (snd s) !! "theme")) in Heq.
    simpl in Heq. rewrite !lookup_insert_eq in Heq. destruct t; discriminate.
Qed.

(** ** The two users of the local storage *)

(** X16: the theme and the history use different keys of the local
    storage: applying a theme does not change what the loader returns,
    and saving the history does not change the preferred theme. *)
Theorem storage_keys_apart (JSON_parse : string -> option JSON)
    (JSON_stringify : list StoredAssessment -> option string)
    (has_window has_document write_ok : bool) (t : ThemeToggle.Theme)
    (p : ThemeToggle.Page) (hist : list StoredAssessment) (matchMedia : option bool) :
  loadAssessments JSON_parse has_window
    (getItem STORAGE_KEY
       (ThemeToggle.localStorage (ThemeToggle.applyTheme has_document write_ok t p)))
  = loadAssessments JSON_parse has_window (getItem STORAGE_KEY (ThemeToggle.localStorage p))
  /\ ThemeToggle.getPreferredTheme has_window
       (getItem "theme"
          (saveAssessments JSON_stringify has_window write_ok hist (ThemeToggle.localStorage p)))
       matchMedia
     = ThemeToggle.getPreferredTheme has_window
         (getItem "theme" (ThemeToggle.localStorage p)) matchMedia.
Proof.
  split.
  - unfold ThemeToggle.applyTheme, getItem.
    destruct has_document, write_ok; simpl; try reflexivity.
    now rewrite lookup_insert_ne by discriminate.
  - unfold saveAssessments, getItem.
    destruct has_window; simpl; [|reflexivity].
    destruct (JSON_stringify hist); [|reflexivity].
    destruct write_ok; [|reflexivity].
    now rewrite lookup_insert_ne by discriminate.
Qed.

(** ** The export *)

Lemma export_clicks_last (outcomes : list (option image_result)) (start : option string) :
  foldl export_click start outcomes
  = match last (omap (WheelChart_handleExport true) outcomes) with
    | Some url => Some url
    | None => start
    end.
Proof.
  revert start. induction outcomes as [|o outcomes IH]; intros start; [reflexivity|].
  change (foldl export_click start (o :: outcomes))
    with (foldl export_click (export_click start o) outcomes).
  rewrite IH.
  assert (Hom : omap (WheelChart_handleExport true) (o :: outcomes)
                = match WheelChart_handleExport true o with
                  | Some y => y :: omap (WheelChart_handleExport true) outcomes
                  | None => omap (WheelChart_handleExport true) outcomes
                  end) by reflexivity.
  rewrite Hom. unfold export_click, Home_handleExport.
  destruct (WheelChart_handleExport true o) as [url|]; [|reflexivity].
  destruct (omap _ outcomes) as [|u us]; [reflexivity|].
  change (last (url :: u :: us)) with (last (u :: us)).
  destruct (last (u :: us)) eqn:E; [reflexivity|].
  apply last_None in E. discriminate.
Qed.

(** X17: after any presses of the download button the export url, when
    set, is a non-empty string that the chart gave as an image, the one of
    the last press that gave one; presses without a chart, without the
    method, or with an empty or non-string result leave it as it was. *)
Theorem export_url_is_last_image (outcomes : list (option image_result)) (url : string) :
  foldl export_click None outcomes = Some url ->
  url <> ""
  /\ Some (ImageString url) ∈ outcomes
  /\ last (omap (WheelChart_handleExport true) outcomes) = Some url.
Proof.
  rewrite export_clicks_last.
  destruct (last _) as [u|] eqn:El; [|discriminate]. intros [= ->].
  assert (Hin : url ∈ omap (WheelChart_handleExport true) outcomes).
  { apply last_Some in El as (l' & ->). apply elem_of_app. right. apply list_elem_of_here. }
  apply list_elem_of_omap in Hin as (o & Ho & Hu).
  unfold WheelChart_handleExport in Hu. simpl in Hu.
  destruct o as [[|u|]|]; try discriminate.
  destruct (JsString.truthy u) eqn:Ht; [|discriminate]. injection Hu as ->.
  split; [now apply truthy_true|]. split; [exact Ho | reflexivity].
Qed.

Lemma export_url_is_last_image_witness :
  "data:b" <> ""
  /\ Some (ImageString "data:b")
     ∈ [None; Some (ImageString "data:a"); Some (ImageString "data:b");
        Some NoMethod; Some (ImageString "")]
  /\ last (omap (WheelChart_handleExport true)
             [None; Some (ImageString "data:a"); Some (ImageString "data:b");
              Some NoMethod; Some (ImageString "")])
     = Some "data:b".
Proof.
  apply (export_url_is_last_image
           [None; Some (ImageString "data:a"); Some (ImageString "data:b");
            Some NoMethod; Some (ImageString "")] "data:b").
  reflexivity.
Defined.

Lemma append_length (a b : string) :
  String.length (a +:+ b) = (String.length a + String.length b)%nat.
Proof. induction a as [|c a IH]; simpl; [reflexivity | now rewrite IH]. Qed.

(** X18: for a name within ASCII, a name of white space only gives the
    same export text as no name, the date alone; any other name is drawn
    trimmed, followed by the separator and the date. *)
Theorem export_label_blank_name (userName dateString : string) :
  JsString.is_ascii userName = true ->
  let label := exportInfo_label (Home_userName userName) dateString in
  (JsString.trim userName = "" -> label = dateString)
  /\ (JsString.trim userName <> "" ->
      label = JsString.trim userName +:+ " · " +:+ dateString /\ label <> dateString).
Proof.
  intros _. cbv zeta. unfold exportInfo_label, Home_userName. split.
  - intros H. destruct (JsString.truthy userName); [|reflexivity].
    apply truthy_false in H. now rewrite H.
  - intros H. destruct (JsString.truthy userName) eqn:Hu.
    + apply truthy_true in H as Ht. rewrite Ht. split; [reflexivity|].
      intros Heq. apply (f_equal String.length) in Heq.
      rewrite !append_length in Heq. simpl in Heq. lia.
    + apply truthy_false in Hu. subst userName. now destruct H.
Qed.

Lemma export_label_blank_name_witness :
  exportInfo_label (Home_userName "   ") "Jan 02, 2026" = "Jan 02, 2026"
  /\ exportInfo_label (Home_userName " Ada ") "Jan 02, 2026" = "Ada · Jan 02, 2026".
Proof.
  split.
  - apply (export_label_blank_name "   " "Jan 02, 2026"); reflexivity.
  - apply (export_label_blank_name " Ada " "Jan 02, 2026"); [reflexivity | discriminate].
Defined.

(** ** Persisting and loading *)

(** X19: after the effect wrote a non-empty history, the loader returns
    what the written text parses to, whatever was stored before; an
    empty history is never written; and after a write that fails the
    loader returns what it returned before. *)
Theorem persist_then_load (JSON_parse : string -> option JSON)
    (JSON_stringify : list StoredAssessment -> option string)
    (st : State) (localStorage : gmap string string) :
  (forall text elems,
     assessments st <> [] ->
     JSON_stringify (assessments st) = Some text ->
     text <> "" ->
     JSON_parse text = Some (JArray elems) ->
     loadAssessments JSON_parse true
       (getItem STORAGE_KEY (persist_effect JSON_stringify true true st localStorage))
     = elems)
  /\ (assessments st = [] ->
      forall has_window write_ok,
        persist_effect JSON_stringify has_window write_ok st localStorage = localStorage)
  /\ (forall has_window,
        loadAssessments JSON_parse has_window
          (getItem STORAGE_KEY (persist_effect JSON_stringify has_window false st localStorage))
        = loadAssessments JSON_parse has_window (getItem STORAGE_KEY localStorage)).
Proof.
  split; [|split].
  - intros text elems Hne Hs Ht Hp.
    unfold persist_effect, saveAssessments. simpl.
    destruct (assessments st) as [|a hist] eqn:E; [contradiction|]. simpl.
    rewrite Hs. unfold getItem. rewrite lookup_insert_eq.
    unfold loadAssessments. simpl.
    apply truthy_true in Ht. rewrite Ht. simpl. now rewrite Hp.
  - intros H hw w. unfold persist_effect. now rewrite H.
  - intros hw. unfold persist_effect, saveAssessments.
    destruct (length (assessments st)); [reflexivity|].
    destruct hw; simpl; [|reflexivity].
    now destruct (JSON_stringify (assessments st)).
Qed.

Lemma persist_then_load_witness :
  let st := handleSaveAssessment "id-1" "1/2/2026" "10:30 AM" "2026-01-02T10:30:00.000Z"
              initial_state in
  loadAssessments JsonText.parse true
    (getItem STORAGE_KEY
       (persist_effect JsonPrint.stringify true true st (<["theme" := "dark"]> ∅)))
  = map JsonPrint.assessment_json (assessments st).
Proof.
  cbv zeta.
  apply (proj1 (persist_then_load JsonText.parse JsonPrint.stringify
                  (handleSaveAssessment "id-1" "1/2/2026" "10:30 AM"
                     "2026-01-02T10:30:00.000Z" initial_state)
                  (<["theme" := "dark"]> ∅))
           (JsonPrint.print
              (JArray (map JsonPrint.assessment_json
                         (assessments
                            (handleSaveAssessment "id-1" "1/2/2026" "10:30 AM"
                               "2026-01-02T10:30:00.000Z" initial_state)))))).
  - discriminate.
  - reflexivity.
  - vm_compute. discriminate.
  - vm_compute. reflexivity.
Defined.

(** ** The lowest score comes first *)

(** X20: a category whose score is strictly below the score of every
    other rated category is the first of the priority set, and the first
    highlight and the first action are its own. *)
Theorem strict_minimum_first (cats : list Category) (scs : gmap string Z)
    (c : Category) (v : Z) :
  c ∈ cats ->
  scs !! cat_label c = Some v ->
  (forall c' v', c' ∈ cats -> scs !! cat_label c' = Some v' -> v' <= v -> c' = c) ->
  head (lowest_of cats scs) = Some c
  /\ head (highlights (generateInsights cats scs)) = Some (highlight_text (cat_label c) v)
  /\ head (actions (generateInsights cats scs))
     = Some (suggestForCategory (cat_id c) (cat_label c)).
Proof.
  intros Hc Hv Hmin.
  assert (Hact : c ∈ active_of cats scs).
  { unfold active_of, has_score. apply list_elem_of_filter. split; [|exact Hc].
    apply bool_decide_eq_true. rewrite Hv. eauto. }
  assert (Hhead : head (lowest_of cats scs) = Some c).
  { unfold lowest_of, lowestSorted_of, by_score.
    pose proof (sort_Permutation (score_of scs) (active_of cats scs)) as Hp.
    pose proof (sort_StronglySorted (score_of scs) (active_of cats scs)) as Hs.
    destruct (sort _ (active_of cats scs)) as [|h t] eqn:E.
    { apply Permutation_nil in Hp. rewrite Hp in Hact.
      now apply elem_of_nil in Hact. }
    simpl. f_equal.
    assert (Hh : h ∈ active_of cats scs).
    { apply list_elem_of_In. eapply Permutation_in; [exact Hp|]. now left. }
    unfold active_of, has_score in Hh. apply list_elem_of_filter in Hh as [Hhs Hhc].
    apply bool_decide_eq_true in Hhs. destruct Hhs as [v' Hv'].
    apply (Hmin h v' Hhc Hv').
    assert (Hct : c ∈ h :: t).
    { apply list_elem_of_In. eapply Permutation_in; [symmetry; exact Hp|].
      now apply list_elem_of_In. }
    apply elem_of_cons in Hct as [-> | Hct]; [rewrite Hv in Hv'; injection Hv'; lia|].
    apply StronglySorted_inv in Hs as [_ Hall].
    rewrite Forall_forall in Hall. specialize (Hall c Hct).
    unfold score_of in Hall. rewrite Hv, Hv' in Hall. exact Hall. }
  split; [exact Hhead|].
  rewrite generateInsights_highlights, generateInsights_actions.
  destruct (lowest_of cats scs) as [|h t]; [discriminate|].
  injection Hhead as ->. simpl. unfold score_of. rewrite Hv. split; reflexivity.
Qed.

Lemma strict_minimum_first_witness :
  head (lowest_of example_categories example_scores) = Some (mkCategory "c" "C" "")
  /\ head (highlights (generateInsights example_categories example_scores))
     = Some (highlight_text "C" 3)
  /\ head (actions (generateInsights example_categories example_scores))
     = Some (suggestForCategory "c" "C").
Proof.
  apply (strict_minimum_first example_categories example_scores (mkCategory "c" "C" "") 3).
  - apply list_elem_of_In. simpl. tauto.
  - reflexivity.
  - intros c' v' Hc' Hv' Hle. apply list_elem_of_In in Hc'. simpl in Hc'.
    destruct Hc' as [<- | [<- | [<- | [<- | []]]]]; vm_compute in Hv';
      injection Hv' as <-; (reflexivity || lia).
Defined.

(** ** Scores stay in range *)

Lemma in_range_step (o : Heap.op) (st : State) :
  slider_op o ->
  map_Forall (fun _ v => in_range v) (scores st) ->
  map_Forall (fun _ v => in_range v) (scores (apply_op o st)).
Proof.
  intros Ho H. destruct o as [label value|now label description|id|id date time iso]; simpl.
  - now apply map_Forall_insert_2.
  - unfold addCategory, handleAddCategory. simpl.
    destruct (JsString.truthy _); simpl; [|exact H].
    destruct (label_exists _ _); [exact H|]. simpl.
    apply map_Forall_insert_2; [unfold in_range; lia | exact H].
  - destruct (find _ _); [|exact H]. now apply map_Forall_delete.
  - exact H.
Qed.

(** X21: when every score that is set lies within 0..10, as the slider
    sends it, all scores of every reached state lie within 0..10. *)
Theorem reachable_scores_in_range (ops : list Heap.op) :
  Forall slider_op ops ->
  map_Forall (fun _ v => in_range v) (scores (apply_ops ops initial_state)).
Proof.
  assert (H : forall st, Forall slider_op ops ->
                         map_Forall (fun _ v => in_range v) (scores st) ->
                         map_Forall (fun _ v => in_range v) (scores (apply_ops ops st))).
  { induction ops as [|o ops IH]; intros st Hops Hst; simpl; [exact Hst|].
    apply Forall_cons in Hops as [Ho Hops]. apply IH; [exact Hops|].
    now apply in_range_step. }
  intros Hops. apply H; [exact Hops|].
  apply map_Forall_lookup. intros l v Hl.
  assert (Hv : v = 5).
  { revert Hl. unfold initial_state, initial_scores. simpl.
    repeat (rewrite lookup_insert; case_decide; [congruence|]).
    rewrite lookup_empty. discriminate. }
  subst v. unfold in_range. lia.
Qed.

Lemma reachable_scores_in_range_witness :
  map_Forall (fun _ v => in_range v)
    (scores (apply_ops [Heap.SetScore "Finances" 0; Heap.AddCategory 1 "Play" "";
                        Heap.SetScore "Play" 10; Heap.RemoveCategory "health"]
               initial_state)).
Proof.
  apply reachable_scores_in_range.
  repeat constructor; unfold in_range; lia.
Defined.

(** ** A mean that is a tenth prints as it is *)

(** X22: when the mean of the scores is a whole number of tenths, the
    summary prints exactly this number (scores within 0..10, fewer than
    2^32 categories). *)
Theorem exact_tenth_mean (cats : list Category) (scs : gmap string Z) (k : Z) :
  let active := active_of cats scs in
  let total := foldl Z.add 0 (map (score_of scs) active) in
  active <> [] ->
  (forall c, c ∈ active -> 0 <= score_of scs c <= 10) ->
  Z.of_nat (length cats) < 2 ^ 32 ->
  10 * total = k * Z.of_nat (length active) ->
  summary (generateInsights cats scs)
  = Some (summary_text (pretty (k / 10) +:+ "." +:+ pretty (k mod 10)) (length active)).
Proof.
  cbv zeta. intros Hne Hrange Hlen Hk.
  unfold generateInsights.
  destruct (active_of cats scs) as [|a0 active] eqn:E; [contradiction|].
  rewrite <- E in *.
  assert (Hn : (0 < length (active_of cats scs) <= length cats)%nat).
  { split; [rewrite E; simpl; lia|]. unfold active_of. apply length_filter. }
  destruct (length (active_of cats scs)) as [|n'] eqn:El; [lia|]. rewrite <- El in *.
  unfold average_of. rewrite length_map, El. rewrite <- El.
  set (total := foldl Z.add 0 (map (score_of scs) (active_of cats scs))) in *.
  assert (Ht : 0 <= total <= 10 * Z.of_nat (length (active_of cats scs))).
  { pose proof (foldl_add_bounds (map (score_of scs) (active_of cats scs)) 0) as Hb.
    rewrite length_map in Hb. unfold total. apply Hb.
    apply Forall_map, Forall_forall. intros x Hx. apply Hrange. exact Hx. }
  destruct (toFixed1_mean total (Z.of_nat (length (active_of cats scs))))
    as (d & Hd & Hnear); [lia | exact Ht |].
  assert (Hdk : d = k) by nia. subst d.
  assert (Hk100 : 0 <= k <= 100) by nia.
  simpl summary. rewrite Hd, (render_tenths_digits k Hk100). reflexivity.
Qed.

Lemma exact_tenth_mean_witness :
  summary (generateInsights DEFAULT_CATEGORIES initial_scores)
  = Some (summary_text "5.0" (length (active_of DEFAULT_CATEGORIES initial_scores))).
Proof.
  apply (exact_tenth_mean DEFAULT_CATEGORIES initial_scores 50).
  - vm_compute. discriminate.
  - apply Forall_forall. apply (bool_decide_unpack _). vm_compute. exact I.
  - vm_compute. reflexivity.
  - vm_compute. reflexivity.
Defined.
